(** * uiauto.dev: the Android driver and its hierarchy parser

    A shallow embedding of [src/uiauto_dev/driver/android.py]:
    the strategy list of [AndroidDriver._dump_hierarchy_raw], the
    [screenshot] and [shell] entry points, and the XML-to-[Node] parser
    [parse_xml] / [parse_xml_element] with its inline bounds
    normalisation.

    Conventions.
    - A Python call that may raise is a value of [result A]: [Ok a] for a
      normal return, [Raise e] for an exception [e] leaving the call.
    - Python [int] is [Z]; [str] is [string].  A Python [float] is a
      rational number.  The parser is stated over exact arithmetic
      ([truediv], [round]: the quotient and its rounding without
      binary64 error), which is enough for the range, sign and order of
      the coordinates; [float_truediv] and [float_round] are the
      binary64 operations of the interpreter, and [normalize_bounds64]
      is the normalisation over them.
    - The device and the automation back ends are external; what they
      answer during one request is a parameter of the model.
    - [Node], [WindowSize] and [ShellResponse] are declared in
      [uiauto_dev.model]; they are records with the fields the driver
      fills in.

    The first part of the file holds the embedding, the second part the
    properties proved about it. *)

From Stdlib Require Import ZArith QArith Qround Qabs Qpower Lqa String Ascii List Lia.
From stdpp Require Import base option list strings gmap.

Set Warnings "-register-all".
Open Scope Z_scope.

(** ** Exceptions and results *)

(** The exception classes that occur in the driver.  [RequestException],
    [UDTError], [AdbError] and [SocketTimeout] are raised by the external
    transports; [XMLParseError] by [ElementTree.fromstring]; [OtherError]
    stands for any exception class not named in the source. *)
Inductive Exn : Type :=
  | RequestException (msg : string)
  | AndroidDriverException (msg : string)
  | UDTError (msg : string)
  | AdbError (msg : string)
  | SocketTimeout
  | ValueError (msg : string)
  | AssertionError
  | ZeroDivisionError
  | XMLParseError (msg : string)
  | OtherError (msg : string).

#[global] Instance Exn_eq_dec : EqDecision Exn.
Proof. solve_decision. Defined.

(** [str(e)] of an exception: its message. *)
Definition exn_str (e : Exn) : string :=
  match e with
  | RequestException m | AndroidDriverException m | UDTError m
  | AdbError m | ValueError m | XMLParseError m | OtherError m => m
  | SocketTimeout => "timed out"
  | AssertionError => ""
  | ZeroDivisionError => "division by zero"
  end.

Inductive result (A : Type) : Type :=
  | Ok (a : A)
  | Raise (e : Exn).
Arguments Ok {A} a.
Arguments Raise {A} e.

Definition bind {A B} (m : result A) (k : A -> result B) : result B :=
  match m with
  | Ok a => k a
  | Raise e => Raise e
  end.

Declare Scope result_scope.
Delimit Scope result_scope with result.
Notation "'let*' x ':=' m 'in' k" := (bind m (fun x => k))
  (at level 10, x name, m at level 100, k at level 200) : result_scope.
Open Scope result_scope.

(** ** The strategy list of [AndroidDriver._dump_hierarchy_raw] *)

(** The four bound methods that [AndroidDriver.__init__] puts in
    [_try_dump_list], in that order.  Two of them share the
    [__name__] [dump_hierarchy]; bound methods compare by object and
    function, so they are four different list entries. *)
Inductive DumpFunc : Type :=
  | get_u2_hierarchy
  | udt_dump_hierarchy
  | get_appium_hierarchy
  | device_dump_hierarchy.

#[global] Instance DumpFunc_eq_dec : EqDecision DumpFunc.
Proof. solve_decision. Defined.

Definition initial_try_dump_list : list DumpFunc :=
  [get_u2_hierarchy; udt_dump_hierarchy; get_appium_hierarchy;
   device_dump_hierarchy].

(** The [except] clause of the loop: the listed classes are swallowed
    and the loop continues; anything else leaves the method. *)
Definition caught (e : Exn) : bool :=
  match e with
  | RequestException _ | AndroidDriverException _ | UDTError _
  | AdbError _ | SocketTimeout => true
  | _ => false
  end.

Section Engine.
Context {Strategy : Type} `{EqDecision Strategy}.

(** What each strategy answers when it is called during this request. *)
Variable call : Strategy -> result string.

(** [list.remove(x)]: drops the first entry equal to [x]; raises
    [ValueError] when there is none. *)
Fixpoint list_remove (x : Strategy) (l : list Strategy)
  : result (list Strategy) :=
  match l with
  | [] => Raise (ValueError "list.remove(x): x not in list")
  | y :: l' =>
      if decide (x = y) then Ok l'
      else let* r := list_remove x l' in Ok (y :: r)
  end.

(** The [for] loop over the copy [self._try_dump_list[:]].
    [todo] is what is left of the copy, [cur] the list attribute.
    [remove] and [insert(0, _)] sit inside the [try], after the call. *)
Fixpoint try_dump (todo cur : list Strategy)
  : result string * list Strategy :=
  match todo with
  | [] => (Raise (AndroidDriverException "Failed to dump hierarchy"), cur)
  | dump_func :: todo' =>
      match call dump_func with
      | Ok payload =>
          match list_remove dump_func cur with
          | Ok cur' => (Ok payload, dump_func :: cur')
          | Raise e =>
              if caught e then try_dump todo' cur else (Raise e, cur)
          end
      | Raise e =>
          if caught e then try_dump todo' cur else (Raise e, cur)
      end
  end.

Definition _dump_hierarchy_raw (try_dump_list : list Strategy)
  : result string * list Strategy :=
  try_dump try_dump_list try_dump_list.

(** A strategy fails recoverably when its exception is one the loop
    swallows. *)
Definition fails_recoverably (s : Strategy) : Prop :=
  exists e, call s = Raise e /\ caught e = true.
End Engine.

(** ** [AndroidDriver.screenshot] *)

(** The device I/O a call performs, in order. *)
Inductive IOEvent : Type :=
  | io_device_screenshot
  | io_udt_screenshot.

Section Screenshot.
Context {Image : Type}.

(** [self.device.screenshot()], [img.convert("RGB")] and
    [self.udt.screenshot()]. *)
Variable device_screenshot : result Image.
Variable convert_RGB : Image -> Image.
Variable udt_screenshot : result Image.

(** Returns the I/O performed and the outcome.  Only [adbutils.AdbError]
    is handled by the [except] clause. *)
Definition screenshot (id : Z) : list IOEvent * result Image :=
  if 0 <? id then ([], Raise (ValueError "multi-display is not supported yet"))
  else
    match device_screenshot with
    | Ok img => ([io_device_screenshot], Ok (convert_RGB img))
    | Raise (AdbError _) =>
        ([io_device_screenshot; io_udt_screenshot], udt_screenshot)
    | Raise e => ([io_device_screenshot], Raise e)
    end.
End Screenshot.

(** ** Decimal text: [str] of an [int], [int] of a digit string, [join] *)

Definition is_digit (c : ascii) : bool :=
  (48 <=? nat_of_ascii c)%nat && (nat_of_ascii c <=? 57)%nat.

Definition digit_char (d : Z) : ascii := ascii_of_nat (48 + Z.to_nat d).

Definition digit_value (c : ascii) : Z := Z.of_nat (nat_of_ascii c) - 48.

(** The decimal digits of [n >= 0], most significant first; [fuel]
    bounds the number of digits. *)
Fixpoint str_digits (fuel : nat) (n : Z) : string :=
  match fuel with
  | O => ""
  | S fuel' =>
      if n <? 10 then String (digit_char n) ""
      else str_digits fuel' (n / 10) +:+ String (digit_char (n mod 10)) ""
  end.

Definition digits_fuel (n : Z) : nat := S (Z.to_nat (Z.log2 n)).

(** [str(n)] for an [int]. *)
Definition str (n : Z) : string :=
  if n <? 0 then "-" +:+ str_digits (digits_fuel (- n)) (- n)
  else str_digits (digits_fuel n) n.

Fixpoint int_acc (acc : Z) (s : string) : Z :=
  match s with
  | EmptyString => acc
  | String c s' => int_acc (10 * acc + digit_value c) s'
  end.

(** [int(s)] on a match of [\d+]: the decimal value of the digits. *)
Definition int (s : string) : Z := int_acc 0 s.

(** [sep.join(l)]. *)
Fixpoint join (sep : string) (l : list string) : string :=
  match l with
  | [] => ""
  | x :: l' =>
      match l' with
      | [] => x
      | _ => x +:+ sep +:+ join sep l'
      end
  end.

(** ** [re.findall(r"\d+", s)] *)

Definition flush (cur : string) : list string :=
  if decide (cur = "") then [] else [cur].

(** Scans [s] left to right; [cur] is the run of digits read so far. *)
Fixpoint findall_digits_from (cur s : string) : list string :=
  match s with
  | EmptyString => flush cur
  | String c s' =>
      if is_digit c then findall_digits_from (cur +:+ String c "") s'
      else flush cur ++ findall_digits_from "" s'
  end.

Definition findall_digits (s : string) : list string :=
  findall_digits_from "" s.

(** ** Exact arithmetic: true division and [round(_, ndigits)] *)

(** [a / b] on two [int]s, as the exact quotient. *)
Definition truediv (a b : Z) : result Q :=
  if b =? 0 then Raise ZeroDivisionError
  else Ok (Qred (inject_Z a / inject_Z b)).

(** Rounding to the nearest integer, ties to even. *)
Definition round_half_even (q : Q) : Z :=
  let f := Qfloor q in
  match Qcompare (q - inject_Z f) (1 # 2) with
  | Lt => f
  | Gt => f + 1
  | Eq => if Z.even f then f else f + 1
  end.

(** [round(x, ndigits)], as Python documents it: the closest multiple
    of [10^-ndigits], the even choice when two are equally close, as an
    exact decimal. *)
Definition round (x : Q) (ndigits : nat) : Q :=
  let scale := 10 ^ Z.of_nat ndigits in
  Qred (inject_Z (round_half_even (x * inject_Z scale)) / inject_Z scale).

(** ** The data model of [uiauto_dev.model] *)

(** Modelled from the spec: [WindowSize] of [uiauto_dev.model], built in
    the driver as [WindowSize(width=wsize[0], height=wsize[1])]. *)
Record WindowSize : Type := mkWindowSize { width : Z; height : Z }.

Definition Bounds : Type := Q * Q * Q * Q.

(** Modelled from the spec: [Node] of [uiauto_dev.model], with the five
    fields [parse_xml_element] passes to its constructor. *)
Inductive Node : Type :=
  mkNode (key : string) (name : string) (bounds : option Bounds)
         (properties : gmap string string) (children : list Node).

Definition key (n : Node) : string :=
  match n with mkNode k _ _ _ _ => k end.
Definition name (n : Node) : string :=
  match n with mkNode _ x _ _ _ => x end.
Definition bounds (n : Node) : option Bounds :=
  match n with mkNode _ _ b _ _ => b end.
Definition properties (n : Node) : gmap string string :=
  match n with mkNode _ _ _ p _ => p end.
Definition children (n : Node) : list Node :=
  match n with mkNode _ _ _ _ c => c end.

(** Modelled from the spec: [ShellResponse] of [uiauto_dev.model]. *)
Record ShellResponse : Type :=
  mkShellResponse { output : string; error : option string }.

(** An [xml.etree.ElementTree.Element]: tag, attribute dictionary and
    child elements in document order. *)
Inductive Element : Type :=
  mkElement (tag : string) (attrib : gmap string string)
            (subelements : list Element).

Definition tag (e : Element) : string :=
  match e with mkElement t _ _ => t end.
Definition attrib (e : Element) : gmap string string :=
  match e with mkElement _ a _ => a end.
Definition subelements (e : Element) : list Element :=
  match e with mkElement _ _ c => c end.

(** ** [AndroidDriver.shell] *)

(** What [self.device.shell2] returns. *)
Record ShellReturn : Type :=
  mkShellReturn { returncode : Z; ret_output : string }.

Section Shell.
(** [self.device.shell2(command, rstrip=True, timeout=_)]. *)
Variable shell2 : string -> Z -> result ShellReturn.

Definition shell (command : string) : result ShellResponse :=
  match
    (let* ret := shell2 command 20 in
     if returncode ret =? 0
     then Ok (mkShellResponse (ret_output ret) None)
     else Ok (mkShellResponse ""
                (Some ("exit:" +:+ str (returncode ret)
                       +:+ ", output:" +:+ ret_output ret))))
  with
  | Ok r => Ok r
  | Raise e => Ok (mkShellResponse "" (Some ("adb error: " +:+ exn_str e)))
  end.
End Shell.

(** ** [parse_xml_element] and [parse_xml] *)

(** Lines 190-198 of [parse_xml_element]: the value of the [bounds]
    attribute becomes four rounded fractions of the window size.  Here
    over exact arithmetic; [normalize_bounds64] is the same text over
    binary64 floats. *)
Definition normalize_bounds (s : string) (wsize : WindowSize)
  : result Bounds :=
  match map int (findall_digits s) with
  | [b0; b1; b2; b3] =>
      let* x1 := truediv b0 (width wsize) in
      let* y1 := truediv b1 (height wsize) in
      let* x2 := truediv b2 (width wsize) in
      let* y2 := truediv b3 (height wsize) in
      Ok (round x1 4, round y1 4, round x2 4, round y2 4)
  | _ => Raise AssertionError
  end.

(** [{key: d[key] for key in d}]. *)
Definition dict_copy (d : gmap string string) : gmap string string :=
  list_to_map (map (fun k => (k, d !!! k)) (map fst (map_to_list d))).

Section Enumerate.
Context {A B : Type}.
Variable f : nat -> A -> result B.

(** [for index, x in enumerate(l, start): out.append(f(index, x))]. *)
Fixpoint for_enumerate (start : nat) (l : list A) : result (list B) :=
  match l with
  | [] => Ok []
  | x :: l' =>
      let* y := f start x in
      let* ys := for_enumerate (S start) l' in
      Ok (y :: ys)
  end.
End Enumerate.

Definition node_key (indexes : list nat) : string :=
  join "-" (map (fun i => str (Z.of_nat i)) indexes).

Fixpoint parse_xml_element (element : Element) (wsize : WindowSize)
    (indexes : list nat) : result Node :=
  let name :=
    if decide (tag element = "node")
    then default "node" (attrib element !! "class")
    else tag element in
  let* bounds :=
    match attrib element !! "bounds" with
    | Some s => let* b := normalize_bounds s wsize in Ok (Some b)
    | None => Ok None
    end in
  let* children :=
    for_enumerate
      (fun index child => parse_xml_element child wsize (indexes ++ [index]))
      0%nat
      (match element with mkElement _ _ cs => cs end) in
  Ok (mkNode (node_key indexes) name bounds (dict_copy (attrib element))
        children).

Section ParseXml.
(** [ElementTree.fromstring]. *)
Variable fromstring : string -> result Element.

Definition parse_xml (xml_data : string) (wsize : WindowSize)
  : result Node :=
  let* root := fromstring xml_data in
  parse_xml_element root wsize [0%nat].
End ParseXml.

(** ** The default argument [indexes = [0]] as a shared list object

    Python evaluates the default [[0]] once, when the function is
    defined, and every call that omits [indexes] receives that one
    object.  The heap below holds the list objects reachable through
    [indexes]; an address is a position in it.  The body reads
    [indexes] ([map(str, indexes)]) and builds [indexes + [index]],
    which allocates a new list. *)

Abbreviation Heap := (list (list nat)).

Definition heap_read (h : Heap) (a : nat) : list nat := default [] (h !! a).

(** [l + [index]]: a fresh object, appended to the heap. *)
Definition heap_concat (h : Heap) (a : nat) (index : nat) : Heap * nat :=
  (h ++ [heap_read h a ++ [index]], length h).

Section EnumerateHeap.
Context {A B : Type}.
Variable f : Heap -> nat -> A -> Heap * result B.

Fixpoint for_enumerate_heap (h : Heap) (start : nat) (l : list A)
  : Heap * result (list B) :=
  match l with
  | [] => (h, Ok [])
  | x :: l' =>
      match f h start x with
      | (h1, Raise e) => (h1, Raise e)
      | (h1, Ok y) =>
          match for_enumerate_heap h1 (S start) l' with
          | (h2, Raise e) => (h2, Raise e)
          | (h2, Ok ys) => (h2, Ok (y :: ys))
          end
      end
  end.
End EnumerateHeap.

(** [parse_xml_element] with [indexes] passed by reference. *)
Fixpoint parse_xml_element_heap (h : Heap) (element : Element)
    (wsize : WindowSize) (indexes : nat) : Heap * result Node :=
  let name :=
    if decide (tag element = "node")
    then default "node" (attrib element !! "class")
    else tag element in
  match
    match attrib element !! "bounds" with
    | Some s => let* b := normalize_bounds s wsize in Ok (Some b)
    | None => Ok None
    end
  with
  | Raise e => (h, Raise e)
  | Ok bounds =>
      let key := node_key (heap_read h indexes) in
      match
        for_enumerate_heap
          (fun h' index child =>
             let '(h'', a) := heap_concat h' indexes index in
             parse_xml_element_heap h'' child wsize a)
          h 0%nat
          (match element with mkElement _ _ cs => cs end)
      with
      | (h', Raise e) => (h', Raise e)
      | (h', Ok children) =>
          (h', Ok (mkNode key name bounds (dict_copy (attrib element))
                     children))
      end
  end.

(** The heap right after the module is loaded: the default list [[0]]
    lives at address [default_indexes]. *)
Definition default_indexes : nat := 0%nat.
Definition initial_heap : Heap := [[0%nat]].

Section ParseXmlHeap.
Variable fromstring : string -> result Element.

(** [parse_xml] calls [parse_xml_element(root, wsize)] and so passes
    the default object. *)
Definition parse_xml_heap (h : Heap) (xml_data : string)
    (wsize : WindowSize) : Heap * result Node :=
  match fromstring xml_data with
  | Raise e => (h, Raise e)
  | Ok root => parse_xml_element_heap h root wsize default_indexes
  end.
End ParseXmlHeap.

(** ** Vocabulary of the properties *)

(** The geometry text ["[x1,y1][x2,y2]"]. *)
Definition geometry (x1 y1 x2 y2 : Z) : string :=
  "[" +:+ str x1 +:+ "," +:+ str y1 +:+ "][" +:+ str x2 +:+ ","
      +:+ str y2 +:+ "]".

(** [r] is [q] rounded to [ndigits] decimal digits: a multiple of
    [10^-ndigits] at distance at most half a unit in the last place. *)
Definition rounded_to (ndigits : nat) (q r : Q) : Prop :=
  exists k : Z,
    (r == inject_Z k / inject_Z (10 ^ Z.of_nat ndigits))%Q /\
    (Qabs (q * inject_Z (10 ^ Z.of_nat ndigits) - inject_Z k) <= 1 # 2)%Q.


(** [s] consists of decimal digits only. *)
Fixpoint all_digits (s : string) : bool :=
  match s with
  | EmptyString => true
  | String c s' => is_digit c && all_digits s'
  end.

(** A match of [\d+]: one digit or more. *)
Definition digit_run (s : string) : Prop :=
  all_digits s = true /\ s <> "".

(** [s] occurs in [t]. *)
Definition occurs_in (s t : string) : Prop :=
  exists pre post, t = pre +:+ s +:+ post.

Fixpoint count_elements (e : Element) : nat :=
  match e with
  | mkElement _ _ cs => S (list_sum (map count_elements cs))
  end.

Fixpoint count_nodes (n : Node) : nat :=
  match n with
  | mkNode _ _ _ _ cs => S (list_sum (map count_nodes cs))
  end.

(** The keys of a tree, in document order. *)
Fixpoint node_keys (n : Node) : list string :=
  match n with
  | mkNode k _ _ _ cs => k :: concat (map node_keys cs)
  end.

(** The element, or node, reached by a path of sibling indices. *)
Fixpoint element_at (e : Element) (path : list nat) : option Element :=
  match path with
  | [] => Some e
  | i :: path' =>
      match subelements e !! i with
      | Some c => element_at c path'
      | None => None
      end
  end.

Fixpoint node_at (n : Node) (path : list nat) : option Node :=
  match path with
  | [] => Some n
  | i :: path' =>
      match children n !! i with
      | Some c => node_at c path'
      | None => None
      end
  end.

Section ChildPaths.
Context {A : Type}.
Variable paths : A -> list (list nat).

(** The paths below the children [cs], the first of which has
    sibling index [i]. *)
Fixpoint child_paths (i : nat) (cs : list A) : list (list nat) :=
  match cs with
  | [] => []
  | c :: cs' => map (cons i) (paths c) ++ child_paths (S i) cs'
  end.
End ChildPaths.

(** The sibling-index paths of all elements below [e], in document
    order, relative to [e]. *)
Fixpoint rel_paths (e : Element) : list (list nat) :=
  match e with
  | mkElement _ _ cs => [] :: child_paths rel_paths 0%nat cs
  end.

(** ** Successive requests and [AndroidDriver.dump_hierarchy] *)

Section Requests.
Context {Strategy : Type} `{EqDecision Strategy}.

(** Successive calls of [_dump_hierarchy_raw] on one driver: each call
    starts from the list the call before it left.  [calls] holds, for
    each request in turn, what the strategies answer during it. *)
Fixpoint dump_requests (calls : list (Strategy -> result string))
    (try_dump_list : list Strategy)
  : list (result string) * list Strategy :=
  match calls with
  | [] => ([], try_dump_list)
  | call :: calls' =>
      let '(r, l') := _dump_hierarchy_raw call try_dump_list in
      let '(rs, l'') := dump_requests calls' l' in
      (r :: rs, l'')
  end.

(** [self.device.window_size()]. *)
Variable window_size : result (Z * Z).
Variable call : Strategy -> result string.
Variable fromstring : string -> result Element.

(** [dump_hierarchy]: the window size is read first, then the raw dump
    is taken, then the payload is parsed. *)
Definition dump_hierarchy (try_dump_list : list Strategy)
  : result (string * Node) * list Strategy :=
  match window_size with
  | Raise e => (Raise e, try_dump_list)
  | Ok wsize =>
      match _dump_hierarchy_raw call try_dump_list with
      | (Raise e, l') => (Raise e, l')
      | (Ok xml_data, l') =>
          (let* n := parse_xml fromstring xml_data
                       (mkWindowSize (fst wsize) (snd wsize)) in
           Ok (xml_data, n), l')
      end
  end.
End Requests.

(** ** The REST endpoints of [app.py] *)

(** A [fastapi.Response]. *)
Record Response : Type :=
  mkResponse { content : string; media_type : string; status_code : Z }.

Section Endpoints.
Context {Image : Type}.

(** A driver as the endpoints use it: its [shell] and [screenshot]
    methods. *)
Record Driver : Type :=
  mkDriver { driver_shell : string -> result ShellResponse;
             driver_screenshot : Z -> list IOEvent * result Image }.

(** [android_provider.get_device_driver] and the JPEG encoding
    [pil_img.save(buf, format="JPEG"); buf.getvalue()]. *)
Variable get_device_driver : string -> result Driver.
Variable save_jpeg : Image -> result string.

Definition android_shell (serial command : string) : result ShellResponse :=
  match
    (let* driver := get_device_driver serial in
     driver_shell driver command)
  with
  | Ok r => Ok r
  | Raise e => Ok (mkShellResponse "" (Some (exn_str e)))
  end.

(** Returns the device I/O performed and the response. *)
Definition android_screenshot (serial : string) (id : Z)
  : list IOEvent * result Response :=
  match get_device_driver serial with
  | Raise e => ([], Ok (mkResponse (exn_str e) "text/plain" 500))
  | Ok driver =>
      let '(io, r) := driver_screenshot driver id in
      match (let* pil_img := r in
             let* image_bytes := save_jpeg pil_img in
             Ok (mkResponse image_bytes "image/jpeg" 200))
      with
      | Ok resp => (io, Ok resp)
      | Raise e => (io, Ok (mkResponse (exn_str e) "text/plain" 500))
      end
  end.
End Endpoints.

(** [BaseDriver.shell] of [driver/base.py]: not implemented. *)
Definition BaseDriver_shell (command : string) : result ShellResponse :=
  Raise (OtherError "").

(** ** Binary64 arithmetic: what [/] and [round] compute on floats *)

(** [2^e], for an exponent of either sign. *)
Definition pow2 (e : Z) : Q := ((2 # 1) ^ e)%Q.

(** The integer part of the base-2 logarithm of [q > 0]. *)
Definition ilog2 (q : Q) : Z :=
  let k := Z.log2 (Qnum q) - Z.log2 (Zpos (Qden q)) in
  if Qle_bool (pow2 k) q then k else k - 1.

(** The exponent of the last bit of a binary64 number of the size of
    [q]: 53 significant bits, and subnormal numbers below [2^-1022]. *)
Definition binary64_exp (q : Q) : Z :=
  Z.max (ilog2 (Qabs q) - 52) (-1074).

(** The binary64 number nearest to [q], ties to the even significand,
    before any check for overflow. *)
Definition binary64 (q : Q) : Q :=
  if Qeq_bool q 0 then 0%Q
  else
    let e := binary64_exp q in
    Qred (inject_Z (round_half_even (q / pow2 e)) * pow2 e).

(** [a / b] on two [int]s: the correctly rounded quotient;
    [OverflowError], written [OtherError] here, when it does not fit. *)
Definition float_truediv (a b : Z) : result Q :=
  if b =? 0 then Raise ZeroDivisionError
  else
    let x := binary64 (inject_Z a / inject_Z b) in
    if Qle_bool (pow2 1024) (Qabs x)
    then Raise (OtherError "integer division result too large for a float")
    else Ok x.

(** [round(x, ndigits)] on a float, [ndigits >= 0]: the value of [x] is
    rounded to [ndigits] decimal places, ties to even, and the decimal
    is read back as the nearest float. *)
Definition float_round (x : Q) (ndigits : nat) : Q :=
  let scale := 10 ^ Z.of_nat ndigits in
  binary64 (inject_Z (round_half_even (x * inject_Z scale)) / inject_Z scale).

Section Arithmetic.
(** The division and the rounding to 4 digits in use. *)
Variable div : Z -> Z -> result Q.
Variable round4 : Q -> Q.

(** Lines 190-198 of [parse_xml_element] over a given arithmetic. *)
Definition normalize_bounds_with (s : string) (wsize : WindowSize)
  : result Bounds :=
  match map int (findall_digits s) with
  | [b0; b1; b2; b3] =>
      let* x1 := div b0 (width wsize) in
      let* y1 := div b1 (height wsize) in
      let* x2 := div b2 (width wsize) in
      let* y2 := div b3 (height wsize) in
      Ok (round4 x1, round4 y1, round4 x2, round4 y2)
  | _ => Raise AssertionError
  end.
End Arithmetic.

(** Lines 190-198 of [parse_xml_element] over binary64 floats. *)
Definition normalize_bounds64 : string -> WindowSize -> result Bounds :=
  normalize_bounds_with float_truediv (fun x => float_round x 4).

(** The float quotient [x / dim] does not overflow. *)
Definition float_in_range (x dim : Z) : Prop :=
  (Qabs (binary64 (inject_Z x / inject_Z dim)) < pow2 1024)%Q.

(** [r] is the float [x] rounded to [ndigits] decimal digits: the float
    nearest to a multiple of [10^-ndigits] that is at most half a unit
    of the last digit away from [x]. *)
Definition float_rounded_to (ndigits : nat) (x r : Q) : Prop :=
  exists k : Z,
    r = binary64 (inject_Z k / inject_Z (10 ^ Z.of_nat ndigits)) /\
    (Qabs (x * inject_Z (10 ^ Z.of_nat ndigits) - inject_Z k) <= 1 # 2)%Q.

(** ** Sample inputs *)

(** Two requests in a row on the list [A, B, C]: in the first [A] fails
    with a transport error and [B] answers, in the second [B] times out
    and [A] answers. *)
Definition first_request (s : DumpFunc) : result string :=
  match s with
  | get_u2_hierarchy => Raise (RequestException "connection refused")
  | _ => Ok "<hierarchy rotation='0'/>"
  end.

Definition second_request (s : DumpFunc) : result string :=
  match s with
  | udt_dump_hierarchy => Raise SocketTimeout
  | _ => Ok "<hierarchy rotation='1'/>"
  end.

(** Every back end is unreachable, each in its own way. *)
Definition all_down (s : DumpFunc) : result string :=
  match s with
  | get_u2_hierarchy =>
      Raise (AndroidDriverException
               "Failed to get hierarchy from u2 server: closed")
  | udt_dump_hierarchy => Raise (UDTError "udt not running")
  | get_appium_hierarchy => Raise SocketTimeout
  | device_dump_hierarchy =>
      Raise (AdbError "ERROR: could not get idle state.")
  end.

(** [echo ok] answers 0 and "ok"; [false] answers 1; the device is
    offline for anything else. *)
Definition sample_shell2 (command : string) (timeout : Z)
  : result ShellReturn :=
  if decide (command = "echo ok") then Ok (mkShellReturn 0 "ok")
  else if decide (command = "false") then Ok (mkShellReturn 1 "")
  else Raise (AdbError "device offline").

(** A hierarchy with one view that carries a class and its bounds. *)
Definition sample_view : Element :=
  mkElement "node"
    {[ "class" := "android.widget.TextView"; "bounds" := "[0,0][540,1200]" ]}
    [].

Definition sample_hierarchy : Element :=
  mkElement "hierarchy" {[ "rotation" := "0" ]}
    [ sample_view; mkElement "node" ∅ [ mkElement "node" ∅ [] ] ].

Definition sample_window : WindowSize := mkWindowSize 1080 2400.

Definition sample_xml : string :=
  "<hierarchy rotation='0'><node class='android.widget.TextView' bounds='[0,0][540,1200]'/><node><node/></node></hierarchy>".

(** A reader that knows [sample_xml] only. *)
Definition sample_fromstring (xml_data : string) : result Element :=
  if decide (xml_data = sample_xml) then Ok sample_hierarchy
  else Raise (XMLParseError "syntax error").

(** The quotient [x / dim] as a rational. *)
Definition fraction (x dim : Z) : Q := (inject_Z x / inject_Z dim)%Q.

(** A call extends the heap and returns what the by-value function
    returns for the list found at the address. *)
Definition heap_refines (wsize : WindowSize) (c : Element) : Prop :=
  forall h a, (a < length h)%nat ->
    exists ext,
      parse_xml_element_heap h c wsize a
      = (h ++ ext, parse_xml_element c wsize (heap_read h a)).

(** The embedded automation server answers with text that is not
    JSON, so [json.loads] raises a [ValueError]; the other back ends
    would answer. *)
Definition bad_json_request (s : DumpFunc) : result string :=
  match s with
  | get_u2_hierarchy =>
      Raise (ValueError "Expecting value: line 1 column 1 (char 0)")
  | _ => Ok sample_xml
  end.

(** * Properties *)


(** ** The error monad *)

Lemma bind_Ok_inv {A B} (m : result A) (k : A -> result B) b :
  bind m k = Ok b -> exists a, m = Ok a /\ k a = Ok b.
Proof. destruct m as [a|e]; simpl; [eauto | discriminate]. Qed.

Ltac bind_inv H :=
  let a := fresh "a" in
  let Ha := fresh "Ha" in
  apply bind_Ok_inv in H as (a & Ha & H).

(** ** The strategy list *)

Section EngineFacts.
Context {Strategy : Type} `{EqDecision Strategy}.
Variable call : Strategy -> result string.

Lemma list_remove_first (x : Strategy) l1 l2 :
  x ∉ l1 -> list_remove x (l1 ++ x :: l2) = Ok (l1 ++ l2).
Proof.
  induction l1 as [|y l1 IH]; intros Hx; simpl.
  - by rewrite decide_True.
  - apply not_elem_of_cons in Hx as [Hxy Hx].
    rewrite decide_False by done. by rewrite IH.
Qed.

Lemma try_dump_skip l1 todo cur :
  Forall (fails_recoverably call) l1 ->
  try_dump call (l1 ++ todo) cur = try_dump call todo cur.
Proof.
  induction 1 as [|s l1 (e & He & Hc) _ IH]; simpl; [done|].
  by rewrite He, Hc.
Qed.

Lemma fails_not_succeeds l1 s payload :
  Forall (fails_recoverably call) l1 -> call s = Ok payload -> s ∉ l1.
Proof.
  intros Hall Hs Hin.
  rewrite Forall_forall in Hall.
  destruct (Hall s Hin) as (e & He & _).
  congruence.
Qed.

(** The list attribute is only written together with a normal return. *)
Lemma try_dump_raise_keeps todo cur e cur' :
  try_dump call todo cur = (Raise e, cur') -> cur' = cur.
Proof.
  induction todo as [|s todo IH]; simpl.
  - by intros [= _ <-].
  - destruct (call s) as [p|e1].
    + destruct (list_remove s cur) as [c|e2]; [discriminate|].
      destruct (caught e2); [exact IH | by intros [= _ <-]].
    + destruct (caught e1); [exact IH | by intros [= _ <-]].
Qed.

(** C1. The first strategy of the list that succeeds, all the ones
    before it having failed with an exception the loop swallows,
    determines the outcome: the dump returns its payload and the list
    becomes that strategy followed by all the others in their former
    order.  With [l1 = [A]], [f = B], [l2 = [C]] the order [A, B, C]
    becomes [B, A, C]; with [l1 = [B]], [f = A] it becomes [A, B, C]
    again.  The strategies that failed are not moved. *)
Theorem dump_promotes_success l1 f l2 payload :
  Forall (fails_recoverably call) l1 ->
  call f = Ok payload ->
  _dump_hierarchy_raw call (l1 ++ f :: l2) = (Ok payload, f :: l1 ++ l2).
Proof.
  intros Hfail Hok. unfold _dump_hierarchy_raw.
  rewrite try_dump_skip by done. simpl. rewrite Hok.
  rewrite list_remove_first; [done|].
  by eapply fails_not_succeeds.
Qed.

(** C2. When every strategy of the list fails with an exception the
    loop swallows, the dump raises
    [AndroidDriverException("Failed to dump hierarchy")] and the list
    is the one the call started with. *)
Theorem dump_all_fail l :
  Forall (fails_recoverably call) l ->
  _dump_hierarchy_raw call l
  = (Raise (AndroidDriverException "Failed to dump hierarchy"), l).
Proof.
  intros Hfail. unfold _dump_hierarchy_raw.
  rewrite <- (app_nil_r l) at 1.
  by rewrite try_dump_skip.
Qed.

(** Whatever the strategies answer, an exception leaving the dump
    leaves the list as it was. *)
Lemma dump_raise_keeps_order l e l' :
  _dump_hierarchy_raw call l = (Raise e, l') -> l' = l.
Proof. apply try_dump_raise_keeps. Qed.
End EngineFacts.

Lemma dump_promotes_success_witness :
  _dump_hierarchy_raw first_request
    [get_u2_hierarchy; udt_dump_hierarchy; get_appium_hierarchy]
  = (Ok "<hierarchy rotation='0'/>",
     [udt_dump_hierarchy; get_u2_hierarchy; get_appium_hierarchy])
  /\
  _dump_hierarchy_raw second_request
    [udt_dump_hierarchy; get_u2_hierarchy; get_appium_hierarchy]
  = (Ok "<hierarchy rotation='1'/>",
     [get_u2_hierarchy; udt_dump_hierarchy; get_appium_hierarchy]).
Proof.
  split.
  - apply (dump_promotes_success first_request
             [get_u2_hierarchy] udt_dump_hierarchy [get_appium_hierarchy]).
    + constructor; [|constructor].
      exists (RequestException "connection refused"). split; reflexivity.
    + reflexivity.
  - apply (dump_promotes_success second_request
             [udt_dump_hierarchy] get_u2_hierarchy [get_appium_hierarchy]).
    + constructor; [|constructor].
      exists SocketTimeout. split; reflexivity.
    + reflexivity.
Defined.

Lemma dump_all_fail_witness :
  _dump_hierarchy_raw all_down initial_try_dump_list
  = (Raise (AndroidDriverException "Failed to dump hierarchy"),
     initial_try_dump_list).
Proof.
  apply (dump_all_fail all_down initial_try_dump_list).
  unfold initial_try_dump_list.
  repeat constructor; eexists; split; reflexivity.
Defined.

(** ** [screenshot] *)

(** C6, as the code has it.  The guard is [id > 0]: for every display
    id greater than 0 the call raises [ValueError] and performs no I/O;
    for the display id 0 the first thing it does is the device capture. *)
Theorem screenshot_guard {Image : Type} (device_screenshot : result Image)
    (convert_RGB : Image -> Image) (udt_screenshot : result Image) (id : Z) :
  (0 < id ->
   screenshot device_screenshot convert_RGB udt_screenshot id
   = ([], Raise (ValueError "multi-display is not supported yet")))
  /\
  (id = 0 ->
   exists io r,
     screenshot device_screenshot convert_RGB udt_screenshot id
     = (io_device_screenshot :: io, r)).
Proof.
  unfold screenshot. split; intros Hid.
  - destruct (Z.ltb_spec 0 id); [done | lia].
  - destruct (Z.ltb_spec 0 id); [lia|].
    destruct device_screenshot as [img|[]]; eauto.
Qed.

Lemma screenshot_guard_witness :
  screenshot (Ok "png") (fun img => img) (Ok "jpeg") 1
  = ([], Raise (ValueError "multi-display is not supported yet"))
  /\
  exists io r,
    screenshot (Ok "png") (fun img => img) (Ok "jpeg") 0
    = (io_device_screenshot :: io, r).
Proof.
  split.
  - apply (proj1 (screenshot_guard (Ok "png") (fun img => img) (Ok "jpeg") 1)).
    lia.
  - apply (proj2 (screenshot_guard (Ok "png") (fun img => img) (Ok "jpeg") 0)).
    reflexivity.
Defined.

(** The display id [-1] is not [0], yet the device is asked for a
    capture and the call returns an image: the guard [id > 0] lets
    every negative id through. *)
Lemma screenshot_negative_id_captures :
  (-1 <> 0) /\
  screenshot (Ok "png") (fun img => img) (Ok "jpeg") (-1)
  = ([io_device_screenshot], Ok "png").
Proof. split; [lia | reflexivity]. Qed.

(** On a transport failure of the device capture the call falls back to
    the capture of the debug-transport service. *)
Lemma screenshot_fallback {Image : Type} (convert_RGB : Image -> Image)
    (udt_screenshot : result Image) msg :
  screenshot (Raise (AdbError msg)) convert_RGB udt_screenshot 0
  = ([io_device_screenshot; io_udt_screenshot], udt_screenshot).
Proof. reflexivity. Qed.

(** ** [shell] *)

Lemma string_app_nil_l (s : string) : "" +:+ s = s.
Proof. reflexivity. Qed.

Lemma string_app_cons c (s t : string) :
  String c s +:+ t = String c (s +:+ t).
Proof. reflexivity. Qed.

Lemma string_app_nil_r (s : string) : s +:+ "" = s.
Proof.
  induction s as [|c s IH]; [done|]. by rewrite string_app_cons, IH.
Qed.

Lemma string_app_assoc (a b c : string) : (a +:+ b) +:+ c = a +:+ b +:+ c.
Proof.
  induction a as [|x a IH]; [done|]. by rewrite !string_app_cons, IH.
Qed.

Ltac string_simpl := rewrite ?string_app_cons, ?string_app_nil_l.

Lemma occurs_in_middle pre s post : occurs_in s (pre +:+ s +:+ post).
Proof. by exists pre, post. Qed.

Lemma occurs_in_end pre s : occurs_in s (pre +:+ s).
Proof. exists pre, "". by rewrite string_app_nil_r. Qed.

(** C7. [shell] always returns a [ShellResponse]: the captured output
    and no error when the exit code is 0; an empty output and an error
    text holding the exit code and the output when it is not; an empty
    output and an error text holding the cause when the device call
    raises. *)
Theorem shell_folds_failures (shell2 : string -> Z -> result ShellReturn)
    (command : string) :
  (exists r, shell shell2 command = Ok r)
  /\
  (forall ret, shell2 command 20 = Ok ret -> returncode ret = 0 ->
     shell shell2 command = Ok (mkShellResponse (ret_output ret) None))
  /\
  (forall ret, shell2 command 20 = Ok ret -> returncode ret <> 0 ->
     exists err,
       shell shell2 command = Ok (mkShellResponse "" (Some err)) /\
       err = "exit:" +:+ str (returncode ret) +:+ ", output:"
                     +:+ ret_output ret /\
       occurs_in (str (returncode ret)) err /\
       occurs_in (ret_output ret) err)
  /\
  (forall e, shell2 command 20 = Raise e ->
     exists err,
       shell shell2 command = Ok (mkShellResponse "" (Some err)) /\
       err = "adb error: " +:+ exn_str e /\
       occurs_in (exn_str e) err).
Proof.
  unfold shell. repeat split.
  - destruct (shell2 command 20) as [ret|e]; simpl; [|eauto].
    destruct (returncode ret =? 0); eauto.
  - intros ret -> Hrc. simpl. by rewrite (proj2 (Z.eqb_eq _ _) Hrc).
  - intros ret -> Hrc. simpl. rewrite (proj2 (Z.eqb_neq _ _) Hrc).
    eexists. split; [reflexivity|]. split; [reflexivity|]. split.
    + apply (occurs_in_middle "exit:").
    + rewrite <- !string_app_assoc. apply occurs_in_end.
  - intros e ->. simpl.
    eexists. split; [reflexivity|]. split; [reflexivity|].
    apply occurs_in_end.
Qed.

Lemma shell_folds_failures_witness :
  shell sample_shell2 "echo ok" = Ok (mkShellResponse "ok" None)
  /\ shell sample_shell2 "false"
     = Ok (mkShellResponse "" (Some "exit:1, output:"))
  /\ shell sample_shell2 "ls"
     = Ok (mkShellResponse "" (Some "adb error: device offline")).
Proof.
  split; [|split].
  - apply (proj1 (proj2 (shell_folds_failures sample_shell2 "echo ok"))
             (mkShellReturn 0 "ok")); reflexivity.
  - destruct (proj1 (proj2 (proj2 (shell_folds_failures sample_shell2 "false")))
                (mkShellReturn 1 "")) as (err & Hs & -> & _);
      [reflexivity | discriminate | exact Hs].
  - destruct (proj2 (proj2 (proj2 (shell_folds_failures sample_shell2 "ls")))
                (AdbError "device offline")) as (err & Hs & -> & _);
      [reflexivity | exact Hs].
Defined.

(** ** Decimal text *)

Lemma all_digits_app s t :
  all_digits (s +:+ t) = all_digits s && all_digits t.
Proof.
  induction s as [|c s IH]; [done|].
  rewrite string_app_cons. simpl. by rewrite IH, andb_assoc.
Qed.

Lemma digit_cases d :
  0 <= d < 10 ->
  d = 0 \/ d = 1 \/ d = 2 \/ d = 3 \/ d = 4 \/ d = 5 \/ d = 6 \/ d = 7
  \/ d = 8 \/ d = 9.
Proof. lia. Qed.

Lemma is_digit_digit_char d : 0 <= d < 10 -> is_digit (digit_char d) = true.
Proof.
  intros Hd. destruct (digit_cases d Hd) as [->|Hd'];
    [reflexivity | repeat (destruct Hd' as [->|Hd']; [reflexivity|])].
  by subst.
Qed.

Lemma digit_value_digit_char d :
  0 <= d < 10 -> digit_value (digit_char d) = d.
Proof.
  intros Hd. destruct (digit_cases d Hd) as [->|Hd'];
    [reflexivity | repeat (destruct Hd' as [->|Hd']; [reflexivity|])].
  by subst.
Qed.


Lemma int_acc_app a s t : int_acc a (s +:+ t) = int_acc (int_acc a s) t.
Proof.
  revert a. induction s as [|c s IH]; intros a; [done|].
  rewrite string_app_cons. simpl. apply IH.
Qed.



Lemma str_digits_small fuel n :
  0 <= n < 10 ->
  int (str_digits (S fuel) n) = n /\ digit_run (str_digits (S fuel) n).
Proof.
  intros Hn. cbn [str_digits].
  destruct (Z.ltb_spec n 10) as [_|?]; [|lia].
  unfold int, digit_run. cbn [int_acc all_digits].
  rewrite digit_value_digit_char, is_digit_digit_char by done.
  split; [lia|]. split; [reflexivity | discriminate].
Qed.

(** With enough fuel [str_digits] writes [n] in decimal. *)
Lemma str_digits_spec fuel n :
  0 <= n < 2 ^ Z.of_nat (S fuel) ->
  int (str_digits (S fuel) n) = n /\ digit_run (str_digits (S fuel) n).
Proof.
  revert n. induction fuel as [|fuel IH]; intros n Hn.
  - apply str_digits_small.
    change (2 ^ Z.of_nat 1) with 2 in Hn. lia.
  - destruct (Z.ltb_spec n 10) as [Hlt|Hge].
    { apply str_digits_small. lia. }
    assert (0 <= n / 10 < 2 ^ Z.of_nat (S fuel)) as Hq.
    { split; [apply Z.div_pos; lia|].
      apply Z.div_lt_upper_bound; [lia|].
      rewrite (Nat2Z.inj_succ (S fuel)), Z.pow_succ_r in Hn by lia. lia. }
    destruct (IH _ Hq) as (Hint & Hdig & Hne).
    assert (0 <= n mod 10 < 10) as Hr by (apply Z.mod_pos_bound; lia).
    change (str_digits (S (S fuel)) n)
      with (if n <? 10 then String (digit_char n) ""
            else str_digits (S fuel) (n / 10)
                 +:+ String (digit_char (n mod 10)) "").
    destruct (Z.ltb_spec n 10) as [?|_]; [lia|].
    split; [|split].
    + unfold int in *. rewrite int_acc_app, Hint. cbn [int_acc].
      rewrite digit_value_digit_char by done.
      pose proof (Z.div_mod n 10). lia.
    + rewrite all_digits_app, Hdig. cbn [all_digits].
      by rewrite is_digit_digit_char.
    + destruct (str_digits (S fuel) (n / 10)); [done | discriminate].
Qed.

Lemma digits_fuel_enough n :
  0 <= n -> 0 <= n < 2 ^ Z.of_nat (digits_fuel n).
Proof.
  intros Hn. split; [done|]. unfold digits_fuel.
  rewrite Nat2Z.inj_succ, Z2Nat.id by apply Z.log2_nonneg.
  destruct (decide (n = 0)) as [->|Hne]; [done|].
  apply Z.log2_spec. lia.
Qed.

Lemma str_nonneg n : 0 <= n -> str n = str_digits (digits_fuel n) n.
Proof. intros Hn. unfold str. destruct (Z.ltb_spec n 0); [lia | done]. Qed.

(** [int(str(n)) == n] for [n >= 0]. *)
Lemma int_str n : 0 <= n -> int (str n) = n.
Proof.
  intros Hn. rewrite str_nonneg by done.
  apply str_digits_spec, digits_fuel_enough, Hn.
Qed.

Lemma digit_run_str n : 0 <= n -> digit_run (str n).
Proof.
  intros Hn. rewrite str_nonneg by done.
  apply str_digits_spec, digits_fuel_enough, Hn.
Qed.

Lemma str_inj n m : 0 <= n -> 0 <= m -> str n = str m -> n = m.
Proof.
  intros Hn Hm Heq. rewrite <- (int_str n), <- (int_str m) by done.
  by rewrite Heq.
Qed.

(** ** [re.findall] *)

Lemma flush_digit_run s : s <> "" -> flush s = [s].
Proof. intros Hs. unfold flush. by rewrite decide_False. Qed.

Lemma findall_digits_from_run cur d rest :
  all_digits d = true ->
  findall_digits_from cur (d +:+ rest)
  = findall_digits_from (cur +:+ d) rest.
Proof.
  revert cur. induction d as [|c d IH]; intros cur Hd.
  - by rewrite string_app_nil_r.
  - simpl in Hd. apply andb_true_iff in Hd as [Hc Hd].
    rewrite string_app_cons. simpl. rewrite Hc, IH by done.
    by rewrite string_app_assoc.
Qed.

(** A run of digits followed by a character that is not a digit is
    one match. *)
Lemma findall_digits_from_sep d c rest :
  digit_run d -> is_digit c = false ->
  findall_digits_from "" (d +:+ String c rest)
  = d :: findall_digits_from "" rest.
Proof.
  intros [Hd Hne] Hc.
  rewrite findall_digits_from_run, string_app_nil_l by done.
  simpl. rewrite Hc. by rewrite flush_digit_run.
Qed.

Lemma findall_digits_from_skip c rest :
  is_digit c = false ->
  findall_digits_from "" (String c rest) = findall_digits_from "" rest.
Proof. intros Hc. simpl. by rewrite Hc. Qed.



Lemma findall_digits_geometry x1 y1 x2 y2 :
  0 <= x1 -> 0 <= y1 -> 0 <= x2 -> 0 <= y2 ->
  findall_digits (geometry x1 y1 x2 y2) = [str x1; str y1; str x2; str y2].
Proof.
  intros H1 H2 H3 H4. unfold findall_digits, geometry.
  string_simpl.
  rewrite findall_digits_from_skip by done.
  rewrite findall_digits_from_sep by (done || by apply digit_run_str).
  rewrite findall_digits_from_sep by (done || by apply digit_run_str).
  rewrite findall_digits_from_skip by done.
  rewrite findall_digits_from_sep by (done || by apply digit_run_str).
  rewrite findall_digits_from_sep by (done || by apply digit_run_str).
  done.
Qed.

(** ** Division and rounding *)

Lemma round_half_even_floor q :
  Qfloor q <= round_half_even q <= Qfloor q + 1.
Proof.
  unfold round_half_even.
  destruct (q - inject_Z (Qfloor q) ?= 1 # 2)%Q; [|lia..].
  destruct (Z.even (Qfloor q)); lia.
Qed.

(** The nearest integer is within one half. *)
Lemma round_half_even_near q :
  (Qabs (q - inject_Z (round_half_even q)) <= 1 # 2)%Q.
Proof.
  pose proof (Qfloor_le q) as Hlo. pose proof (Qlt_floor q) as Hhi.
  rewrite inject_Z_plus in Hhi. change (inject_Z 1) with 1%Q in Hhi.
  apply Qabs_Qle_condition. unfold round_half_even.
  destruct (Qcompare_spec (q - inject_Z (Qfloor q)) (1 # 2)) as [He|Hl|Hg].
  - destruct (Z.even (Qfloor q)); rewrite ?inject_Z_plus;
      change (inject_Z 1) with 1%Q; lra.
  - lra.
  - rewrite inject_Z_plus. change (inject_Z 1) with 1%Q. lra.
Qed.

Lemma round_half_even_lower (a : Z) q :
  (inject_Z a <= q)%Q -> a <= round_half_even q.
Proof.
  intros Ha. apply Qfloor_resp_le in Ha. rewrite Qfloor_Z in Ha.
  pose proof (round_half_even_floor q). lia.
Qed.

Lemma round_half_even_upper (b : Z) q :
  (q <= inject_Z b)%Q -> round_half_even q <= b.
Proof.
  intros Hb.
  pose proof (Qfloor_le q) as Hlo.
  assert (Qfloor q <= b) as Hfb.
  { apply Qfloor_resp_le in Hb. by rewrite Qfloor_Z in Hb. }
  destruct (decide (Qfloor q = b)) as [Heq|Hne].
  - unfold round_half_even.
    destruct (Qcompare_spec (q - inject_Z (Qfloor q)) (1 # 2)) as [He|Hl|Hg];
      [| lia |]; rewrite Heq in *; lra.
  - pose proof (round_half_even_floor q). lia.
Qed.



(** [round(x, 4)] is [x] rounded to 4 decimal digits. *)
Lemma round_rounded_to q n : rounded_to n q (round q n).
Proof.
  exists (round_half_even (q * inject_Z (10 ^ Z.of_nat n))). split.
  - unfold round. apply Qred_correct.
  - apply round_half_even_near.
Qed.




Lemma Zdiv_Q_nonneg a b :
  0 <= a -> 0 < b -> (0 <= inject_Z a / inject_Z b)%Q.
Proof.
  intros Ha Hb. apply Qle_shift_div_l.
  - change 0%Q with (inject_Z 0). by rewrite <- Zlt_Qlt.
  - rewrite Qmult_0_l. change 0%Q with (inject_Z 0). by rewrite <- Zle_Qle.
Qed.


(** ** Bounds normalisation *)







(** ** The parser, one element at a time *)

Lemma parse_xml_element_eq element wsize indexes :
  parse_xml_element element wsize indexes
  = let* bounds :=
      match attrib element !! "bounds" with
      | Some s => let* b := normalize_bounds s wsize in Ok (Some b)
      | None => Ok None
      end in
    let* children :=
      for_enumerate
        (fun index child =>
           parse_xml_element child wsize (indexes ++ [index]))
        0%nat (subelements element) in
    Ok (mkNode (node_key indexes)
          (if decide (tag element = "node")
           then default "node" (attrib element !! "class")
           else tag element)
          bounds (dict_copy (attrib element)) children).
Proof. by destruct element. Qed.

(** An exception of the bounds normalisation leaves [parse_xml_element]
    before any child is visited. *)
Lemma parse_xml_element_bounds_raise element wsize indexes s ex :
  attrib element !! "bounds" = Some s ->
  normalize_bounds s wsize = Raise ex ->
  parse_xml_element element wsize indexes = Raise ex.
Proof.
  intros Hs Hex. rewrite parse_xml_element_eq, Hs, Hex. done.
Qed.

Lemma normalize_bounds_assert s wsize :
  length (findall_digits s) <> 4%nat ->
  normalize_bounds s wsize = Raise AssertionError.
Proof.
  intros Hlen. unfold normalize_bounds.
  destruct (findall_digits s) as [|a [|b [|c [|d [|e l]]]]]; try done.
Qed.

Lemma normalize_bounds_zero_division s wsize :
  length (findall_digits s) = 4%nat ->
  width wsize = 0 \/ height wsize = 0 ->
  normalize_bounds s wsize = Raise ZeroDivisionError.
Proof.
  intros Hlen Hz. unfold normalize_bounds.
  destruct (findall_digits s) as [|a [|b [|c [|d [|e l]]]]]; try done.
  cbn [map]. unfold truediv.
  destruct (Z.eqb_spec (width wsize) 0) as [|Hw]; [done|].
  destruct (Z.eqb_spec (height wsize) 0) as [|Hh]; [done|].
  lia.
Qed.

(** C9. A geometry text from which [re.findall] extracts fewer or more
    than four integers makes the normalisation raise (the [assert]
    fails), and so does a window whose width or height is 0 (the
    division raises); in both cases no value is returned, and the
    exception leaves [parse_xml_element] for the element that carries
    the text. *)
Theorem malformed_bounds_raise s wsize :
  (length (findall_digits s) <> 4%nat ->
   normalize_bounds s wsize = Raise AssertionError /\
   forall element indexes,
     attrib element !! "bounds" = Some s ->
     parse_xml_element element wsize indexes = Raise AssertionError)
  /\
  (length (findall_digits s) = 4%nat ->
   width wsize = 0 \/ height wsize = 0 ->
   normalize_bounds s wsize = Raise ZeroDivisionError /\
   forall element indexes,
     attrib element !! "bounds" = Some s ->
     parse_xml_element element wsize indexes = Raise ZeroDivisionError).
Proof.
  split.
  - intros Hlen.
    pose proof (normalize_bounds_assert s wsize Hlen) as Hn.
    split; [done|]. intros element indexes Hs.
    by eapply parse_xml_element_bounds_raise.
  - intros Hlen Hz.
    pose proof (normalize_bounds_zero_division s wsize Hlen Hz) as Hn.
    split; [done|]. intros element indexes Hs.
    by eapply parse_xml_element_bounds_raise.
Qed.

Lemma malformed_bounds_raise_witness :
  normalize_bounds "[1,2][3]" (mkWindowSize 1080 2400) = Raise AssertionError
  /\
  parse_xml_element (mkElement "node" {[ "bounds" := "[1,2][3]" ]} [])
    (mkWindowSize 1080 2400) [0%nat] = Raise AssertionError
  /\
  normalize_bounds "[1,2][3,4]" (mkWindowSize 1080 0)
  = Raise ZeroDivisionError.
Proof.
  split; [|split].
  - apply (proj1 (malformed_bounds_raise "[1,2][3]" (mkWindowSize 1080 2400))).
    vm_compute. discriminate.
  - apply (proj1 (malformed_bounds_raise "[1,2][3]" (mkWindowSize 1080 2400))).
    + vm_compute. discriminate.
    + reflexivity.
  - apply (proj2 (malformed_bounds_raise "[1,2][3,4]" (mkWindowSize 1080 0))).
    + reflexivity.
    + right. reflexivity.
Defined.

(** ** The loop over the children *)

Section EnumerateFacts.
Context {A B : Type}.
Variable f : nat -> A -> result B.

Lemma for_enumerate_length start l ys :
  for_enumerate f start l = Ok ys -> length ys = length l.
Proof.
  revert start ys. induction l as [|x l IH]; intros start ys Hl; simpl in Hl.
  - by injection Hl as <-.
  - bind_inv Hl. bind_inv Hl. injection Hl as <-. simpl.
    f_equal. by eapply IH.
Qed.

Lemma for_enumerate_lookup start l ys j x :
  for_enumerate f start l = Ok ys ->
  l !! j = Some x ->
  exists y, ys !! j = Some y /\ f (start + j)%nat x = Ok y.
Proof.
  revert start ys j.
  induction l as [|x0 l IH]; intros start ys j Hl Hj; [done|].
  simpl in Hl. bind_inv Hl. bind_inv Hl. injection Hl as <-.
  destruct j as [|j]; simpl in *.
  - injection Hj as <-. exists a. by rewrite Nat.add_0_r.
  - destruct (IH _ _ _ Ha0 Hj) as (y & Hy & Hf).
    exists y. split; [done|]. by rewrite <- Nat.add_succ_comm.
Qed.

Lemma for_enumerate_lookup_inv start l ys j y :
  for_enumerate f start l = Ok ys ->
  ys !! j = Some y ->
  exists x, l !! j = Some x /\ f (start + j)%nat x = Ok y.
Proof.
  intros Hl Hj.
  assert (is_Some (l !! j)) as [x Hx].
  { apply lookup_lt_is_Some. rewrite <- (for_enumerate_length _ _ _ Hl).
    by eapply lookup_lt_Some. }
  destruct (for_enumerate_lookup _ _ _ _ _ Hl Hx) as (y' & Hy' & Hf).
  exists x. split; [done|]. congruence.
Qed.
End EnumerateFacts.

(** What a successful call says about the node it returns. *)
Lemma parse_xml_element_Ok element wsize indexes n :
  parse_xml_element element wsize indexes = Ok n ->
  key n = node_key indexes /\
  properties n = dict_copy (attrib element) /\
  for_enumerate
    (fun index child => parse_xml_element child wsize (indexes ++ [index]))
    0%nat (subelements element) = Ok (children n).
Proof.
  rewrite parse_xml_element_eq. intros H.
  bind_inv H. bind_inv H. by injection H as <-.
Qed.

(** The node at a path is the parse of the element at that path. *)
Lemma parse_xml_element_at element wsize indexes n path e' :
  parse_xml_element element wsize indexes = Ok n ->
  element_at element path = Some e' ->
  exists n', node_at n path = Some n' /\
             parse_xml_element e' wsize (indexes ++ path) = Ok n'.
Proof.
  revert element indexes n.
  induction path as [|i path IH]; intros element indexes n Hn He; simpl in *.
  - injection He as <-. exists n. by rewrite app_nil_r.
  - destruct (subelements element !! i) as [c|] eqn:Hc; [|done].
    destruct (parse_xml_element_Ok _ _ _ _ Hn) as (_ & _ & Hcs).
    destruct (for_enumerate_lookup _ _ _ _ _ _ Hcs Hc) as (y & Hy & Hpy).
    simpl in Hpy. rewrite Hy.
    destruct (IH _ _ _ Hpy He) as (n' & Hn' & Hp').
    exists n'. split; [done|]. by rewrite <- app_assoc in Hp'.
Qed.

Lemma parse_xml_node_at element wsize indexes n path n' :
  parse_xml_element element wsize indexes = Ok n ->
  node_at n path = Some n' ->
  exists e', element_at element path = Some e' /\
             parse_xml_element e' wsize (indexes ++ path) = Ok n'.
Proof.
  revert element indexes n.
  induction path as [|i path IH]; intros element indexes n Hn He; simpl in *.
  - injection He as <-. exists element. by rewrite app_nil_r.
  - destruct (children n !! i) as [c|] eqn:Hc; [|done].
    destruct (parse_xml_element_Ok _ _ _ _ Hn) as (_ & _ & Hcs).
    destruct (for_enumerate_lookup_inv _ _ _ _ _ _ Hcs Hc) as (x & Hx & Hpx).
    simpl in Hpx. rewrite Hx.
    destruct (IH _ _ _ Hpx He) as (e' & He' & Hp').
    exists e'. split; [done|]. by rewrite <- app_assoc in Hp'.
Qed.

(** ** The properties dictionary *)

Lemma dict_copy_id (d : gmap string string) : dict_copy d = d.
Proof.
  unfold dict_copy.
  trans (list_to_map (map_to_list d) : gmap string string);
    [|apply list_to_map_to_list].
  f_equal. rewrite map_map.
  trans (map id (map_to_list d)); [|apply map_id].
  apply map_ext_in. intros [k v] Hin. simpl. f_equal.
  apply lookup_total_correct, elem_of_map_to_list, list_elem_of_In, Hin.
Qed.

(** C5, as the code has it.  For every element of the tree, the node
    built for it has a [properties] dictionary equal to the element's
    attribute dictionary: every attribute, [bounds] included, with its
    text unchanged, and nothing else. *)
Theorem properties_copy_attrib element wsize indexes n path e' n' :
  parse_xml_element element wsize indexes = Ok n ->
  element_at element path = Some e' ->
  node_at n path = Some n' ->
  properties n' = attrib e' /\
  forall k v, properties n' !! k = Some v <-> attrib e' !! k = Some v.
Proof.
  intros Hn He Hn'.
  destruct (parse_xml_element_at _ _ _ _ _ _ Hn He) as (n2 & Hn2 & Hp).
  assert (n2 = n') as -> by congruence.
  destruct (parse_xml_element_Ok _ _ _ _ Hp) as (_ & Hprops & _).
  rewrite dict_copy_id in Hprops. rewrite Hprops. done.
Qed.

Lemma properties_copy_attrib_witness :
  exists n n',
    parse_xml_element sample_hierarchy sample_window [0%nat] = Ok n /\
    node_at n [0%nat] = Some n' /\
    properties n' = attrib sample_view.
Proof.
  destruct (parse_xml_element sample_hierarchy sample_window [0%nat])
    as [n|] eqn:Hn; [|by vm_compute in Hn].
  destruct (node_at n [0%nat]) as [n'|] eqn:Hn'.
  - exists n, n'. split; [done|]. split; [done|].
    apply (properties_copy_attrib sample_hierarchy sample_window [0%nat] n
             [0%nat] sample_view n' Hn eq_refl Hn').
  - exfalso. vm_compute in Hn. injection Hn as <-. by vm_compute in Hn'.
Defined.

(** The [bounds] attribute of an element is an entry of the node's
    [properties]. *)
Lemma properties_hold_bounds :
  exists n,
    parse_xml_element sample_view sample_window [0%nat] = Ok n /\
    attrib sample_view !! "bounds" = Some "[0,0][540,1200]" /\
    properties n !! "bounds" = Some "[0,0][540,1200]".
Proof. eexists. split; [vm_compute; reflexivity|]. split; reflexivity. Qed.

(** ** Keys *)

Lemma join_cons x l :
  join "-" (x :: l)
  = x +:+ match l with [] => "" | _ :: _ => "-" +:+ join "-" l end.
Proof. destruct l; [by rewrite string_app_nil_r | done]. Qed.

(** Two texts that start with a run of digits and go on with something
    that is not a digit agree only if the runs agree. *)
Lemma digits_prefix_inj d1 d2 r1 r2 :
  all_digits d1 = true -> all_digits d2 = true ->
  match r1 with EmptyString => True | String c _ => is_digit c = false end ->
  match r2 with EmptyString => True | String c _ => is_digit c = false end ->
  d1 +:+ r1 = d2 +:+ r2 -> d1 = d2 /\ r1 = r2.
Proof.
  revert d2. induction d1 as [|c1 d1 IH]; intros [|c2 d2] H1 H2 Hr1 Hr2 Heq;
    rewrite ?string_app_cons, ?string_app_nil_l in Heq.
  - done.
  - subst r1. cbn [all_digits] in H2.
    apply andb_true_iff in H2 as [H2 _]. congruence.
  - subst r2. cbn [all_digits] in H1.
    apply andb_true_iff in H1 as [H1 _]. congruence.
  - injection Heq as -> Heq.
    cbn [all_digits] in H1, H2.
    apply andb_true_iff in H1 as [_ H1]. apply andb_true_iff in H2 as [_ H2].
    destruct (IH _ H1 H2 Hr1 Hr2 Heq) as [-> ->]. done.
Qed.

Lemma str_of_nat_inj (i j : nat) : str (Z.of_nat i) = str (Z.of_nat j) -> i = j.
Proof. intros H. apply str_inj in H; lia. Qed.

(** Different index paths have different keys. *)
Lemma node_key_inj l1 l2 : node_key l1 = node_key l2 -> l1 = l2.
Proof.
  unfold node_key. revert l2.
  induction l1 as [|i l1 IH]; intros [|j l2] Heq; cbn [map] in Heq.
  - done.
  - rewrite join_cons in Heq. cbn [join] in Heq.
    destruct (digit_run_str (Z.of_nat j)) as [_ Hne]; [lia|].
    destruct (str (Z.of_nat j)); [done | discriminate].
  - rewrite join_cons in Heq. cbn [join] in Heq.
    destruct (digit_run_str (Z.of_nat i)) as [_ Hne]; [lia|].
    destruct (str (Z.of_nat i)); [done | discriminate].
  - rewrite !join_cons in Heq.
    destruct (digit_run_str (Z.of_nat i)) as [Hi _]; [lia|].
    destruct (digit_run_str (Z.of_nat j)) as [Hj _]; [lia|].
    apply digits_prefix_inj in Heq as [Hij Htl]; [|done|done|..].
    + apply str_of_nat_inj in Hij as ->. f_equal.
      apply IH.
      destruct l1 as [|a l1], l2 as [|b l2]; cbn [map] in *;
        [done | discriminate | discriminate |].
      by injection Htl.
    + by destruct (map _ l1).
    + by destruct (map _ l2).
Qed.

(** ** Counting and listing the tree *)

Lemma Element_ind' (P : Element -> Prop) :
  (forall t a cs, Forall P cs -> P (mkElement t a cs)) ->
  forall e, P e.
Proof.
  intros Hstep. fix IH 1. intros [t a cs]. apply Hstep.
  induction cs as [|c cs IHcs]; constructor; [apply IH | apply IHcs].
Qed.

Lemma count_children wsize start cs ns (F : nat -> list nat) :
  Forall (fun c => forall idx n, parse_xml_element c wsize idx = Ok n ->
                     count_nodes n = count_elements c) cs ->
  for_enumerate (fun index child => parse_xml_element child wsize (F index))
    start cs = Ok ns ->
  list_sum (map count_nodes ns) = list_sum (map count_elements cs).
Proof.
  intros Hall. revert start ns.
  induction Hall as [|c cs Hc _ IH]; intros start ns Hns; simpl in Hns.
  - by injection Hns as <-.
  - bind_inv Hns. bind_inv Hns. injection Hns as <-.
    simpl. f_equal; [by eapply Hc | by eapply IH].
Qed.

(** One node per element. *)
Lemma parse_xml_element_count element wsize indexes n :
  parse_xml_element element wsize indexes = Ok n ->
  count_nodes n = count_elements element.
Proof.
  revert indexes n. induction element as [t a cs IH] using Element_ind'.
  intros indexes n Hn. rewrite parse_xml_element_eq in Hn.
  bind_inv Hn. bind_inv Hn. injection Hn as <-.
  simpl. f_equal.
  by eapply (count_children wsize 0 cs a1 (fun index => indexes ++ [index])).
Qed.

Lemma keys_children wsize indexes start cs ns :
  Forall (fun c => forall idx n, parse_xml_element c wsize idx = Ok n ->
                     node_keys n
                     = map (fun p => node_key (idx ++ p)) (rel_paths c)) cs ->
  for_enumerate
    (fun index child => parse_xml_element child wsize (indexes ++ [index]))
    start cs = Ok ns ->
  concat (map node_keys ns)
  = map (fun p => node_key (indexes ++ p)) (child_paths rel_paths start cs).
Proof.
  intros Hall. revert start ns.
  induction Hall as [|c cs Hc _ IH]; intros start ns Hns; simpl in Hns.
  - by injection Hns as <-.
  - bind_inv Hns. bind_inv Hns. injection Hns as <-.
    cbn [map concat child_paths]. rewrite map_app, map_map.
    f_equal; [|by eapply IH].
    rewrite (Hc _ _ Ha). apply map_ext. intros p.
    by rewrite <- app_assoc.
Qed.

(** The keys of the tree, in document order, are the keys of the
    sibling-index paths of the elements. *)
Lemma parse_xml_element_keys element wsize indexes n :
  parse_xml_element element wsize indexes = Ok n ->
  node_keys n = map (fun p => node_key (indexes ++ p)) (rel_paths element).
Proof.
  revert indexes n. induction element as [t a cs IH] using Element_ind'.
  intros indexes n Hn. rewrite parse_xml_element_eq in Hn.
  bind_inv Hn. bind_inv Hn. injection Hn as <-.
  cbn [node_keys rel_paths map]. rewrite app_nil_r. f_equal.
  by eapply keys_children.
Qed.

Section ChildPathsFacts.
Context {A : Type}.
Variable paths : A -> list (list nat).

Lemma child_paths_head i cs p :
  p ∈ child_paths paths i cs ->
  exists j q, p = j :: q /\ (i <= j)%nat.
Proof.
  revert i. induction cs as [|c cs IH]; intros i Hp; cbn [child_paths] in Hp.
  - by apply elem_of_nil in Hp.
  - apply elem_of_app in Hp as [Hp|Hp].
    + apply list_elem_of_fmap in Hp as (q & -> & _). by exists i, q.
    + destruct (IH _ Hp) as (j & q & -> & Hj). exists j, q. split; [done|lia].
Qed.

Lemma child_paths_NoDup i cs :
  Forall (fun c => NoDup (paths c)) cs ->
  NoDup (child_paths paths i cs).
Proof.
  intros Hall. revert i.
  induction Hall as [|c cs Hc _ IH]; intros i; cbn [child_paths].
  - constructor.
  - apply NoDup_app. split; [|split].
    + apply NoDup_fmap_2_strong; [|done]. by intros ?? _ _ [= ->].
    + intros p Hp1 Hp2.
      apply list_elem_of_fmap in Hp1 as (q & -> & _).
      apply child_paths_head in Hp2 as (j & q' & [= <- <-] & Hj). lia.
    + apply IH.
Qed.
End ChildPathsFacts.

Lemma rel_paths_NoDup element : NoDup (rel_paths element).
Proof.
  induction element as [t a cs IH] using Element_ind'.
  cbn [rel_paths]. constructor.
  - intros Hin. by apply child_paths_head in Hin as (j & q & [=] & _).
  - by apply child_paths_NoDup.
Qed.

(** No key occurs twice in a parsed tree. *)
Lemma parse_xml_element_keys_NoDup element wsize indexes n :
  parse_xml_element element wsize indexes = Ok n -> NoDup (node_keys n).
Proof.
  intros Hn. rewrite (parse_xml_element_keys _ _ _ _ Hn).
  apply NoDup_fmap_2_strong; [|apply rel_paths_NoDup].
  intros p q _ _ Hpq. apply node_key_inj in Hpq.
  by apply app_inv_head in Hpq.
Qed.

(** A tree all of whose [bounds] attributes can be normalised is
    parsed: the function returns a node. *)
Lemma for_enumerate_total wsize (F : nat -> list nat) start cs :
  Forall (fun c => forall idx, exists n, parse_xml_element c wsize idx = Ok n)
    cs ->
  exists ns,
    for_enumerate (fun index child => parse_xml_element child wsize (F index))
      start cs = Ok ns.
Proof.
  intros Hall. revert start.
  induction Hall as [|c cs Hc _ IH]; intros start; simpl; [by eexists|].
  destruct (Hc (F start)) as [n ->]. destruct (IH (S start)) as [ns ->].
  by eexists.
Qed.

Lemma parse_xml_element_total element wsize :
  (forall path e' s,
     element_at element path = Some e' ->
     attrib e' !! "bounds" = Some s ->
     exists b, normalize_bounds s wsize = Ok b) ->
  forall indexes, exists n, parse_xml_element element wsize indexes = Ok n.
Proof.
  induction element as [t a cs IH] using Element_ind'.
  intros Hb indexes. rewrite parse_xml_element_eq.
  assert (exists ns,
            for_enumerate
              (fun index child =>
                 parse_xml_element child wsize (indexes ++ [index]))
              0%nat cs = Ok ns) as [ns Hns].
  { apply for_enumerate_total.
    rewrite Forall_lookup in IH. apply Forall_lookup. intros j c Hc.
    apply (IH j c Hc). intros path e' s He'. apply (Hb (j :: path)).
    simpl. by rewrite Hc. }
  cbn [subelements attrib]. rewrite Hns.
  destruct (a !! "bounds") as [s|] eqn:Hs; [|by eexists].
  destruct (Hb [] _ s eq_refl Hs) as [b ->]. by eexists.
Qed.

(** C3. When [parse_xml] returns a tree for a document, the tree has as
    many nodes as the document has elements, with a node at exactly the
    sibling-index paths at which the document has an element; the key of
    the node at a path is the dash-joined text of 0 followed by the
    indices of the path, the key of the root being "0"; and no two nodes
    of the tree have the same key. *)
Theorem parse_xml_keys (fromstring : string -> result Element)
    xml_data wsize root n :
  fromstring xml_data = Ok root ->
  parse_xml fromstring xml_data wsize = Ok n ->
  count_nodes n = count_elements root /\
  key n = "0" /\
  (forall path, is_Some (node_at n path) <-> is_Some (element_at root path)) /\
  (forall path n', node_at n path = Some n' ->
                   key n' = node_key (0%nat :: path)) /\
  NoDup (node_keys n).
Proof.
  intros Hroot Hn. unfold parse_xml in Hn. rewrite Hroot in Hn.
  cbn [bind] in Hn. split; [|split; [|split; [|split]]].
  - by eapply parse_xml_element_count.
  - by destruct (parse_xml_element_Ok _ _ _ _ Hn) as (-> & _).
  - intros path. split; intros [x Hx].
    + destruct (parse_xml_node_at _ _ _ _ _ _ Hn Hx) as (e' & -> & _).
      by eexists.
    + destruct (parse_xml_element_at _ _ _ _ _ _ Hn Hx) as (n' & -> & _).
      by eexists.
  - intros path n' Hn'.
    destruct (parse_xml_node_at _ _ _ _ _ _ Hn Hn') as (e' & _ & Hp).
    by destruct (parse_xml_element_Ok _ _ _ _ Hp) as (-> & _).
  - by eapply parse_xml_element_keys_NoDup.
Qed.

Lemma parse_xml_keys_witness :
  exists n,
    parse_xml sample_fromstring sample_xml sample_window = Ok n /\
    count_nodes n = 4%nat /\
    node_keys n = ["0"; "0-0"; "0-1"; "0-1-0"] /\
    NoDup (node_keys n).
Proof.
  destruct (parse_xml sample_fromstring sample_xml sample_window)
    as [n|] eqn:Hn; [|by vm_compute in Hn].
  exists n.
  destruct (parse_xml_keys sample_fromstring sample_xml sample_window
              sample_hierarchy n eq_refl Hn) as (Hc & _ & _ & _ & Hnd).
  split; [done|]. split; [by rewrite Hc|]. split; [|done].
  vm_compute in Hn. by injection Hn as <-.
Defined.

(** ** The default argument is never written *)

Lemma heap_read_app h ext a :
  (a < length h)%nat -> heap_read (h ++ ext) a = heap_read h a.
Proof. intros Ha. unfold heap_read. by rewrite lookup_app_l. Qed.

Lemma heap_read_new h l : heap_read (h ++ [l]) (length h) = l.
Proof. unfold heap_read. by rewrite list_lookup_middle. Qed.

Lemma parse_xml_element_heap_eq h element wsize indexes :
  parse_xml_element_heap h element wsize indexes
  = match
      match attrib element !! "bounds" with
      | Some s => let* b := normalize_bounds s wsize in Ok (Some b)
      | None => Ok None
      end
    with
    | Raise e => (h, Raise e)
    | Ok bounds =>
        match
          for_enumerate_heap
            (fun h' index child =>
               let '(h'', a) := heap_concat h' indexes index in
               parse_xml_element_heap h'' child wsize a)
            h 0%nat (subelements element)
        with
        | (h', Raise e) => (h', Raise e)
        | (h', Ok children) =>
            (h', Ok (mkNode (node_key (heap_read h indexes))
                       (if decide (tag element = "node")
                        then default "node" (attrib element !! "class")
                        else tag element)
                       bounds (dict_copy (attrib element)) children))
        end
    end.
Proof. by destruct element. Qed.

Lemma for_enumerate_heap_refines wsize h a cs :
  (a < length h)%nat ->
  Forall (heap_refines wsize) cs ->
  forall start ext, exists ext',
    for_enumerate_heap
      (fun h' index child =>
         let '(h'', a') := heap_concat h' a index in
         parse_xml_element_heap h'' child wsize a')
      (h ++ ext) start cs
    = (h ++ ext',
       for_enumerate
         (fun index child =>
            parse_xml_element child wsize (heap_read h a ++ [index]))
         start cs).
Proof.
  intros Ha Hall.
  induction Hall as [|c cs Hc _ IH]; intros start ext;
    cbn [for_enumerate_heap for_enumerate]; [by eexists|].
  change (heap_concat (h ++ ext) a start)
    with ((h ++ ext) ++ [heap_read (h ++ ext) a ++ [start]],
          length (h ++ ext)).
  cbn beta iota. rewrite heap_read_app by done.
  set (l := heap_read h a ++ [start]).
  destruct (Hc ((h ++ ext) ++ [l]) (length (h ++ ext))) as [ext1 ->].
  { rewrite !length_app. simpl. lia. }
  rewrite heap_read_new.
  destruct (parse_xml_element c wsize l) as [y|e]; cbn [bind].
  - destruct (IH (S start) (ext ++ [l] ++ ext1)) as [ext2 Hrest].
    replace (((h ++ ext) ++ [l]) ++ ext1) with (h ++ ext ++ [l] ++ ext1)
      by (by rewrite !app_assoc).
    rewrite Hrest. exists ext2.
    by destruct (for_enumerate _ (S start) cs).
  - exists (ext ++ [l] ++ ext1). by rewrite !app_assoc.
Qed.

Lemma parse_xml_element_heap_refines wsize element :
  heap_refines wsize element.
Proof.
  induction element as [t at_ cs IH] using Element_ind'.
  intros h a Ha.
  rewrite parse_xml_element_heap_eq, parse_xml_element_eq.
  destruct (match attrib _ !! "bounds" with
            | Some s => _ | None => _ end) as [b|e]; cbn [bind].
  - destruct (for_enumerate_heap_refines wsize h a cs Ha IH 0%nat [])
      as [ext' Hcs].
    rewrite app_nil_r in Hcs. cbn [subelements]. rewrite Hcs.
    exists ext'. by destruct (for_enumerate _ 0%nat cs).
  - exists []. by rewrite app_nil_r.
Qed.

(** C10. A call of [parse_xml] made after any earlier call returns what
    a call on the freshly loaded module returns, which is the value of
    the by-value function; the object behind the default argument still
    holds [[0]] after the earlier call.  Two calls with the same inputs
    therefore return equal results. *)
Theorem parse_xml_deterministic (fromstring : string -> result Element)
    xml_data0 wsize0 xml_data wsize :
  let h1 := fst (parse_xml_heap fromstring initial_heap xml_data0 wsize0) in
  heap_read h1 default_indexes = [0%nat] /\
  snd (parse_xml_heap fromstring h1 xml_data wsize)
  = snd (parse_xml_heap fromstring initial_heap xml_data wsize) /\
  snd (parse_xml_heap fromstring initial_heap xml_data wsize)
  = parse_xml fromstring xml_data wsize.
Proof.
  assert (forall h x w,
            heap_read h default_indexes = [0%nat] ->
            (default_indexes < length h)%nat ->
            exists ext,
              parse_xml_heap fromstring h x w
              = (h ++ ext, parse_xml fromstring x w)) as Hcall.
  { intros h x w Hd Hlen. unfold parse_xml_heap, parse_xml.
    destruct (fromstring x) as [root|e]; cbn [bind].
    - destruct (parse_xml_element_heap_refines w root h default_indexes Hlen)
        as [ext ->].
      exists ext. by rewrite Hd.
    - exists []. by rewrite app_nil_r. }
  assert ((default_indexes < length initial_heap)%nat) as Hlen0
    by (unfold default_indexes, initial_heap; simpl; lia).
  destruct (Hcall initial_heap xml_data0 wsize0 eq_refl Hlen0) as [ext0 H0].
  destruct (Hcall initial_heap xml_data wsize eq_refl Hlen0) as [ext1 H1].
  cbn zeta. rewrite H0, H1. cbn [fst snd].
  assert (heap_read (initial_heap ++ ext0) default_indexes = [0%nat]) as Hd
    by reflexivity.
  split; [done|]. split; [|done].
  destruct (Hcall (initial_heap ++ ext0) xml_data wsize Hd) as [ext2 ->];
    [|done].
  rewrite length_app. unfold default_indexes, initial_heap. simpl. lia.
Qed.

(** * Further properties of the driver *)

(** ** The strategy list over its lifetime *)

Section EngineInvariants.
Context {Strategy : Type} `{EqDecision Strategy}.

Lemma list_remove_Permutation (x : Strategy) l l' :
  list_remove x l = Ok l' -> x :: l' ≡ₚ l.
Proof.
  revert l'. induction l as [|y l IH]; intros l' Hl; simpl in Hl; [done|].
  destruct (decide (x = y)) as [->|Hne].
  - by injection Hl as <-.
  - bind_inv Hl. injection Hl as <-.
    rewrite Permutation_swap. by rewrite (IH _ Ha).
Qed.

Lemma try_dump_Permutation (call : Strategy -> result string) todo cur :
  snd (try_dump call todo cur) ≡ₚ cur.
Proof.
  induction todo as [|s todo IH]; simpl; [done|].
  destruct (call s) as [p|e].
  - destruct (list_remove s cur) as [cur'|e] eqn:Hrm.
    + simpl. by apply list_remove_Permutation.
    + by destruct (caught e).
  - by destruct (caught e).
Qed.

(** The loop seen from the middle: the strategies already tried are
    [tried], all of which failed recoverably, and the list attribute is
    still [tried ++ todo]. *)
Lemma try_dump_inv (call : Strategy -> result string) tried todo r l' :
  Forall (fails_recoverably call) tried ->
  try_dump call todo (tried ++ todo) = (r, l') ->
  match r with
  | Ok payload =>
      exists l1 f l2,
        tried ++ todo = l1 ++ f :: l2 /\
        Forall (fails_recoverably call) l1 /\
        call f = Ok payload /\
        l' = f :: l1 ++ l2
  | Raise e =>
      l' = tried ++ todo /\
      ((Forall (fails_recoverably call) (tried ++ todo) /\
        e = AndroidDriverException "Failed to dump hierarchy")
       \/
       (exists l1 f l2,
          tried ++ todo = l1 ++ f :: l2 /\
          Forall (fails_recoverably call) l1 /\
          call f = Raise e /\ caught e = false))
  end.
Proof.
  revert tried. induction todo as [|s todo IH]; intros tried Htried Hrun.
  - simpl in Hrun. injection Hrun as <- <-. split; [done|]. left.
    by rewrite app_nil_r.
  - simpl in Hrun. destruct (call s) as [p|e] eqn:Hs.
    + rewrite list_remove_first in Hrun by (by eapply fails_not_succeeds).
      injection Hrun as <- <-. by exists tried, s, todo.
    + destruct (caught e) eqn:Hc.
      * replace (tried ++ s :: todo) with ((tried ++ [s]) ++ todo) in *
          by (by rewrite <- app_assoc).
        apply IH; [|done]. apply Forall_app. split; [done|].
        constructor; [|done]. by exists e.
      * injection Hrun as <- <-. split; [done|]. right.
        by exists tried, s, todo.
Qed.

(** X1. Whatever the strategies answer over any number of successive
    dump requests, the list of the driver stays a rearrangement of the
    list it started with: no entry is lost, none is added or doubled. *)
Theorem dump_requests_Permutation
    (calls : list (Strategy -> result string)) (l : list Strategy) :
  snd (dump_requests calls l) ≡ₚ l.
Proof.
  revert l. induction calls as [|call calls IH]; intros l; simpl; [done|].
  pose proof (try_dump_Permutation call l l) as Hone.
  unfold _dump_hierarchy_raw.
  destruct (try_dump call l l) as [r l1]. simpl in Hone.
  specialize (IH l1). destruct (dump_requests calls l1) as [rs l2].
  simpl in *. by rewrite IH.
Qed.

(** X2. When a dump returns a payload, it is the payload of the first
    strategy of the list that did not fail recoverably, every strategy
    before it was tried and failed, and the new list is that strategy
    followed by the others in their former order.  In particular
    [list.remove] never raises inside the loop. *)
Theorem dump_ok_inv (call : Strategy -> result string) l payload l' :
  _dump_hierarchy_raw call l = (Ok payload, l') ->
  exists l1 f l2,
    l = l1 ++ f :: l2 /\
    Forall (fails_recoverably call) l1 /\
    call f = Ok payload /\
    l' = f :: l1 ++ l2.
Proof.
  intros Hrun. by apply (try_dump_inv call [] l (Ok payload) l').
Qed.

(** X3. When a dump raises, the list is unchanged and the exception is
    either the final [AndroidDriverException("Failed to dump hierarchy")]
    after every strategy failed recoverably, or the exception of the
    first strategy that raised something the [except] clause does not
    list. *)
Theorem dump_raise_inv (call : Strategy -> result string) l e l' :
  _dump_hierarchy_raw call l = (Raise e, l') ->
  l' = l /\
  ((Forall (fails_recoverably call) l /\
    e = AndroidDriverException "Failed to dump hierarchy")
   \/
   (exists l1 f l2,
      l = l1 ++ f :: l2 /\
      Forall (fails_recoverably call) l1 /\
      call f = Raise e /\ caught e = false)).
Proof.
  intros Hrun. by apply (try_dump_inv call [] l (Raise e) l').
Qed.

(** X4. An exception outside the [except] clause ends the dump at the
    strategy that raised it: the strategies after it are not consulted,
    even when one of them would have answered, and the list is left as
    it was. *)
Theorem dump_uncaught_aborts (call : Strategy -> result string) l1 f l2 e :
  Forall (fails_recoverably call) l1 ->
  call f = Raise e -> caught e = false ->
  _dump_hierarchy_raw call (l1 ++ f :: l2) = (Raise e, l1 ++ f :: l2).
Proof.
  intros Hfail Hf Hc. unfold _dump_hierarchy_raw.
  rewrite try_dump_skip by done. simpl. by rewrite Hf, Hc.
Qed.

(** X5. After a dump that returned a payload, the same answers of the
    strategies give the same payload again at the first try, and the
    list does not move any more. *)
Theorem dump_repeat_stable (call : Strategy -> result string) l payload l' :
  _dump_hierarchy_raw call l = (Ok payload, l') ->
  _dump_hierarchy_raw call l' = (Ok payload, l').
Proof.
  intros Hrun.
  destruct (try_dump_inv call [] l (Ok payload) l' (Forall_nil_2 _) Hrun)
    as (l1 & f & l2 & _ & _ & Hf & ->).
  unfold _dump_hierarchy_raw. simpl. rewrite Hf.
  by rewrite decide_True.
Qed.

(** X6. [dump_hierarchy] promotes the strategy that answered before the
    payload is parsed: when the payload cannot be parsed, the call
    raises the parser's exception and the strategy that produced the
    payload is nevertheless at the front of the list. *)
Theorem dump_hierarchy_promotes_before_parse
    (call : Strategy -> result string)
    (fromstring : string -> result Element) w h l1 f l2 xml_data e :
  Forall (fails_recoverably call) l1 ->
  call f = Ok xml_data ->
  parse_xml fromstring xml_data (mkWindowSize w h) = Raise e ->
  dump_hierarchy (Ok (w, h)) call fromstring (l1 ++ f :: l2)
  = (Raise e, f :: l1 ++ l2).
Proof.
  intros Hfail Hf Hparse. unfold dump_hierarchy, _dump_hierarchy_raw.
  rewrite try_dump_skip by done. simpl. rewrite Hf.
  rewrite list_remove_first by (by eapply fails_not_succeeds).
  by rewrite Hparse.
Qed.

(** X7. The window size is asked for before anything else: when the
    device does not give it, no list entry moves, and in every case the
    list after [dump_hierarchy] is a rearrangement of the list before. *)
Theorem dump_hierarchy_Permutation (window_size : result (Z * Z))
    (call : Strategy -> result string)
    (fromstring : string -> result Element) l :
  snd (dump_hierarchy window_size call fromstring l) ≡ₚ l /\
  (forall e, window_size = Raise e ->
             dump_hierarchy window_size call fromstring l = (Raise e, l)).
Proof.
  split.
  - unfold dump_hierarchy, _dump_hierarchy_raw.
    destruct window_size as [wsize|e]; [|done].
    pose proof (try_dump_Permutation call l l) as Hone.
    destruct (try_dump call l l) as [[xml_data|e] l1]; done.
  - intros e ->. done.
Qed.
End EngineInvariants.

(** ** More on bounds normalisation *)










Lemma str_neg x : x < 0 -> str x = "-" +:+ str (- x).
Proof.
  intros Hx. unfold str.
  destruct (Z.ltb_spec x 0); [|lia].
  destruct (Z.ltb_spec (- x) 0); [lia | done].
Qed.

(** A number of either sign followed by a character that is not a digit
    contributes the digits of its absolute value. *)
Lemma findall_digits_from_signed x c rest :
  is_digit c = false ->
  findall_digits_from "" (str x +:+ String c rest)
  = str (Z.abs x) :: findall_digits_from "" rest.
Proof.
  intros Hc. destruct (Z.lt_ge_cases x 0) as [Hneg|Hpos].
  - rewrite str_neg, Z.abs_neq by lia. string_simpl.
    rewrite findall_digits_from_skip by done.
    apply findall_digits_from_sep; [apply digit_run_str; lia | done].
  - rewrite Z.abs_eq by done.
    apply findall_digits_from_sep; [by apply digit_run_str | done].
Qed.

Lemma findall_digits_geometry_signed x1 y1 x2 y2 :
  findall_digits (geometry x1 y1 x2 y2)
  = [str (Z.abs x1); str (Z.abs y1); str (Z.abs x2); str (Z.abs y2)].
Proof.
  unfold findall_digits, geometry. string_simpl.
  rewrite findall_digits_from_skip by done.
  rewrite findall_digits_from_signed by done.
  rewrite findall_digits_from_signed by done.
  rewrite findall_digits_from_skip by done.
  rewrite findall_digits_from_signed by done.
  rewrite findall_digits_from_signed by done.
  done.
Qed.

(** X11. A minus sign in the geometry text is dropped: the text written
    for any four integers is normalised to what the text for their
    absolute values gives, so a view that starts left of or above the
    screen is reported at the mirrored, positive position. *)
Theorem normalize_bounds_drops_sign x1 y1 x2 y2 wsize :
  normalize_bounds (geometry x1 y1 x2 y2) wsize
  = normalize_bounds
      (geometry (Z.abs x1) (Z.abs y1) (Z.abs x2) (Z.abs y2)) wsize.
Proof.
  unfold normalize_bounds.
  rewrite findall_digits_geometry_signed.
  rewrite findall_digits_geometry by apply Z.abs_nonneg.
  done.
Qed.

(** ** More on the parsed tree *)




Lemma join_snoc l x :
  l <> [] -> join "-" (l ++ [x]) = join "-" l +:+ "-" +:+ x.
Proof.
  induction l as [|y [|z l] IH]; intros Hne; [done|done|].
  change (join "-" ((y :: z :: l) ++ [x]))
    with (y +:+ "-" +:+ join "-" ((z :: l) ++ [x])).
  rewrite IH by done.
  change (join "-" (y :: z :: l)) with (y +:+ "-" +:+ join "-" (z :: l)).
  by rewrite !string_app_assoc.
Qed.

Lemma node_key_snoc l i :
  l <> [] -> node_key (l ++ [i]) = node_key l +:+ "-" +:+ str (Z.of_nat i).
Proof.
  intros Hne. unfold node_key. rewrite map_app. cbn [map].
  apply join_snoc. by destruct l.
Qed.

Lemma node_at_snoc n path i :
  node_at n (path ++ [i])
  = match node_at n path with
    | Some p => children p !! i
    | None => None
    end.
Proof.
  revert n. induction path as [|j path IH]; intros n; simpl.
  - by destruct (children n !! i).
  - destruct (children n !! j); [apply IH | done].
Qed.

(** X15. In a tree returned by [parse_xml] the key of a child is the
    key of its parent, a dash, and the position of the child among its
    siblings, counted from 0. *)
Theorem child_key_extends_parent (fromstring : string -> result Element)
    xml_data wsize n path p i c :
  parse_xml fromstring xml_data wsize = Ok n ->
  node_at n path = Some p ->
  children p !! i = Some c ->
  key c = key p +:+ "-" +:+ str (Z.of_nat i).
Proof.
  intros Hn Hp Hc. unfold parse_xml in Hn. bind_inv Hn.
  assert (node_at n (path ++ [i]) = Some c) as Hc'
    by (by rewrite node_at_snoc, Hp).
  destruct (parse_xml_node_at _ _ _ _ _ _ Hn Hp) as (e1 & _ & H1).
  destruct (parse_xml_node_at _ _ _ _ _ _ Hn Hc') as (e2 & _ & H2).
  destruct (parse_xml_element_Ok _ _ _ _ H1) as (-> & _).
  destruct (parse_xml_element_Ok _ _ _ _ H2) as (-> & _).
  rewrite app_assoc. by apply node_key_snoc.
Qed.

Lemma child_key_extends_parent_witness :
  exists n p c,
    parse_xml sample_fromstring sample_xml sample_window = Ok n /\
    node_at n [1%nat] = Some p /\ children p !! 0%nat = Some c /\
    key c = key p +:+ "-" +:+ "0".
Proof.
  destruct (parse_xml sample_fromstring sample_xml sample_window)
    as [n|] eqn:Hn; [|by vm_compute in Hn].
  destruct (node_at n [1%nat]) as [p|] eqn:Hp;
    [|exfalso; vm_compute in Hn; injection Hn as <-; by vm_compute in Hp].
  destruct (children p !! 0%nat) as [c|] eqn:Hc;
    [|exfalso; vm_compute in Hn; injection Hn as <-;
      vm_compute in Hp; injection Hp as <-; by vm_compute in Hc].
  exists n, p, c. split; [done|]. split; [done|]. split; [done|].
  apply (child_key_extends_parent sample_fromstring sample_xml sample_window
           n [1%nat] p 0%nat c Hn Hp Hc).
Defined.

(** X16. [parse_xml_element] does not write to the list it is given as
    [indexes], nor to any list that exists when it is called: it only
    allocates new lists, and it returns what the by-value reading of
    the function returns for the content of [indexes]. *)
Theorem parse_xml_element_heap_frame wsize element (h : list (list nat)) a :
  (a < length h)%nat ->
  exists ext,
    parse_xml_element_heap h element wsize a
    = (h ++ ext, parse_xml_element element wsize (heap_read h a)) /\
    forall a', (a' < length h)%nat ->
               heap_read (h ++ ext) a' = heap_read h a'.
Proof.
  intros Ha.
  destruct (parse_xml_element_heap_refines wsize element h a Ha) as [ext Hp].
  exists ext. split; [done|]. intros a' Ha'. by apply heap_read_app.
Qed.

Lemma parse_xml_element_heap_frame_witness :
  exists ext,
    parse_xml_element_heap [[0%nat; 3%nat]] sample_hierarchy sample_window
      0%nat
    = ([[0%nat; 3%nat]] ++ ext,
       parse_xml_element sample_hierarchy sample_window [0%nat; 3%nat]).
Proof.
  destruct (parse_xml_element_heap_frame sample_window sample_hierarchy
              [[0%nat; 3%nat]] 0%nat) as (ext & Hp & _); [simpl; lia|].
  by exists ext.
Defined.

(** ** More on [screenshot], [shell] and the endpoints *)

(** X17. The capture of the debug-transport service is attempted
    exactly when the display id passes the guard and the device capture
    raises [AdbError]; the call then returns whatever that second
    capture gives, its exception included, and the image is not
    converted to RGB.  Any other exception of the device capture leaves
    the call as it is, without a second attempt, and an image that the
    device returns is converted to RGB. *)
Theorem screenshot_fallback_iff {Image : Type}
    (device_screenshot : result Image) (convert_RGB : Image -> Image)
    (udt_screenshot : result Image) (id : Z) :
  (io_udt_screenshot
     ∈ fst (screenshot device_screenshot convert_RGB udt_screenshot id)
   <-> id <= 0 /\ exists msg, device_screenshot = Raise (AdbError msg))
  /\
  (forall msg, id <= 0 -> device_screenshot = Raise (AdbError msg) ->
     screenshot device_screenshot convert_RGB udt_screenshot id
     = ([io_device_screenshot; io_udt_screenshot], udt_screenshot))
  /\
  (forall e, id <= 0 -> device_screenshot = Raise e ->
     (forall msg, e <> AdbError msg) ->
     screenshot device_screenshot convert_RGB udt_screenshot id
     = ([io_device_screenshot], Raise e))
  /\
  (forall img, id <= 0 -> device_screenshot = Ok img ->
     screenshot device_screenshot convert_RGB udt_screenshot id
     = ([io_device_screenshot], Ok (convert_RGB img))).
Proof.
  unfold screenshot. split; [|split; [|split]].
  - destruct (Z.ltb_spec 0 id) as [Hpos|Hle]; simpl.
    + split; [by intros ?%elem_of_nil | intros [? _]; lia].
    + destruct device_screenshot as [img|[]]; simpl;
        (split;
         [ intros Hin; repeat (apply elem_of_cons in Hin as [?|Hin]);
           try apply elem_of_nil in Hin; try done; eauto
         | intros [_ [m Hm]]; try done ]).
      set_solver.
  - intros msg Hle ->. by destruct (Z.ltb_spec 0 id); [lia|].
  - intros e Hle -> Hne. destruct (Z.ltb_spec 0 id); [lia|].
    destruct e; try done. by destruct (Hne msg).
  - intros img Hle ->. by destruct (Z.ltb_spec 0 id); [lia|].
Qed.

(** X18. The response of [shell] tells what happened on the device: its
    error is [None] exactly when the device ran the command and the
    exit code was 0, and whenever it carries an error its output is
    empty. *)
Theorem shell_response_inv (shell2 : string -> Z -> result ShellReturn)
    (command : string) :
  exists r,
    shell shell2 command = Ok r /\
    (error r = None <->
     exists ret, shell2 command 20 = Ok ret /\ returncode ret = 0 /\
                 output r = ret_output ret) /\
    (error r <> None -> output r = "").
Proof.
  unfold shell. destruct (shell2 command 20) as [ret|e]; simpl.
  - destruct (Z.eqb_spec (returncode ret) 0) as [Hz|Hnz].
    + eexists. split; [done|]. simpl. split; [|done].
      split; [by exists ret | done].
    + eexists. split; [done|]. simpl. split; [|done].
      split; [done | by intros (ret' & [= <-] & ? & _)].
  - eexists. split; [done|]. simpl. split; [|done].
    split; [done | by intros (ret' & ? & _)].
Qed.

Lemma shell_returns (shell2 : string -> Z -> result ShellReturn) command :
  exists r, shell shell2 command = Ok r.
Proof.
  unfold shell. destruct (shell2 command 20) as [ret|e]; simpl; [|eauto].
  destruct (returncode ret =? 0); eauto.
Qed.

(** X19. Behind the [/android/{serial}/shell] endpoint an Android driver
    never reaches the endpoint's own [except] clause: the endpoint
    returns the response of [AndroidDriver.shell] unchanged. *)
Theorem android_shell_android_driver {Image : Type}
    (get_device_driver : string -> result (@Driver Image))
    (shell2 : string -> Z -> result ShellReturn) serial command driver :
  get_device_driver serial = Ok driver ->
  driver_shell driver = shell shell2 ->
  android_shell get_device_driver serial command = shell shell2 command.
Proof.
  intros Hd Hs. unfold android_shell. rewrite Hd. cbn [bind]. rewrite Hs.
  by destruct (shell_returns shell2 command) as [r ->].
Qed.

Lemma android_shell_android_driver_witness :
  android_shell
    (fun _ => Ok (mkDriver (shell sample_shell2)
                    (screenshot (Ok "png") (fun img => img) (Ok "jpeg"))))
    "emulator-5554" "false"
  = Ok (mkShellResponse "" (Some "exit:1, output:")).
Proof.
  rewrite (android_shell_android_driver
             (fun _ => Ok (mkDriver (shell sample_shell2)
                             (screenshot (Ok "png") (fun img => img)
                                (Ok "jpeg"))))
             sample_shell2 "emulator-5554" "false"
             (mkDriver (shell sample_shell2)
                (screenshot (Ok "png") (fun img => img) (Ok "jpeg"))));
    reflexivity.
Defined.

(** A driver that keeps [BaseDriver.shell] makes the endpoint
    answer with an empty output and an error that is the empty text,
    not [None]: [str] of the [NotImplementedError] it raises is empty.
    A failure to find the driver is reported as the text of its
    exception. *)
Lemma android_shell_failures {Image : Type}
    (get_device_driver : string -> result (@Driver Image))
    serial command :
  (forall driver,
     get_device_driver serial = Ok driver ->
     driver_shell driver = BaseDriver_shell ->
     android_shell get_device_driver serial command
     = Ok (mkShellResponse "" (Some "")))
  /\
  (forall e,
     get_device_driver serial = Raise e ->
     android_shell get_device_driver serial command
     = Ok (mkShellResponse "" (Some (exn_str e)))).
Proof.
  unfold android_shell. split.
  - intros driver -> Hs. cbn [bind]. by rewrite Hs.
  - by intros e ->.
Qed.

(** X20. Behind the screenshot endpoint, a display id greater than 0
    for an Android driver is answered with status 500, the plain text
    of the [ValueError], and no device I/O. *)
Theorem android_screenshot_positive_id {Image : Type}
    (get_device_driver : string -> result (@Driver Image))
    (save_jpeg : Image -> result string)
    (device_screenshot : result Image) (convert_RGB : Image -> Image)
    (udt_screenshot : result Image) serial id driver :
  get_device_driver serial = Ok driver ->
  driver_screenshot driver
  = screenshot device_screenshot convert_RGB udt_screenshot ->
  0 < id ->
  android_screenshot get_device_driver save_jpeg serial id
  = ([], Ok (mkResponse "multi-display is not supported yet"
               "text/plain" 500)).
Proof.
  intros Hd Hs Hid. unfold android_screenshot. rewrite Hd, Hs.
  unfold screenshot. by destruct (Z.ltb_spec 0 id); [|lia].
Qed.

Lemma android_screenshot_positive_id_witness :
  android_screenshot
    (fun _ => Ok (mkDriver (shell sample_shell2)
                    (screenshot (Ok "png") (fun img => img) (Ok "jpeg"))))
    (fun img => Ok img) "emulator-5554" 1
  = ([], Ok (mkResponse "multi-display is not supported yet"
               "text/plain" 500)).
Proof.
  apply (android_screenshot_positive_id
           (fun _ => Ok (mkDriver (shell sample_shell2)
                           (screenshot (Ok "png") (fun img => img)
                              (Ok "jpeg"))))
           (fun img => Ok img) (Ok "png") (fun img => img) (Ok "jpeg")
           "emulator-5554" 1
           (mkDriver (shell sample_shell2)
              (screenshot (Ok "png") (fun img => img) (Ok "jpeg"))));
    [reflexivity | reflexivity | lia].
Defined.

(** ** The properties of the strategy list on sample requests *)

Lemma dump_ok_inv_witness :
  exists l1 f l2,
    [get_u2_hierarchy; udt_dump_hierarchy; get_appium_hierarchy]
    = l1 ++ f :: l2 /\
    Forall (fails_recoverably first_request) l1 /\
    first_request f = Ok "<hierarchy rotation='0'/>" /\
    [udt_dump_hierarchy; get_u2_hierarchy; get_appium_hierarchy]
    = f :: l1 ++ l2.
Proof.
  apply (dump_ok_inv first_request
           [get_u2_hierarchy; udt_dump_hierarchy; get_appium_hierarchy]).
  reflexivity.
Defined.

Lemma dump_raise_inv_witness :
  initial_try_dump_list = initial_try_dump_list /\
  ((Forall (fails_recoverably all_down) initial_try_dump_list /\
    AndroidDriverException "Failed to dump hierarchy"
    = AndroidDriverException "Failed to dump hierarchy")
   \/
   (exists l1 f l2,
      initial_try_dump_list = l1 ++ f :: l2 /\
      Forall (fails_recoverably all_down) l1 /\
      all_down f = Raise (AndroidDriverException "Failed to dump hierarchy")
      /\ caught (AndroidDriverException "Failed to dump hierarchy") = false)).
Proof.
  apply (dump_raise_inv all_down initial_try_dump_list).
  reflexivity.
Defined.

Lemma dump_uncaught_aborts_witness :
  _dump_hierarchy_raw bad_json_request initial_try_dump_list
  = (Raise (ValueError "Expecting value: line 1 column 1 (char 0)"),
     initial_try_dump_list).
Proof.
  apply (dump_uncaught_aborts bad_json_request [] get_u2_hierarchy
           [udt_dump_hierarchy; get_appium_hierarchy; device_dump_hierarchy]);
    [constructor | reflexivity | reflexivity].
Defined.

Lemma dump_repeat_stable_witness :
  _dump_hierarchy_raw first_request
    [udt_dump_hierarchy; get_u2_hierarchy; get_appium_hierarchy]
  = (Ok "<hierarchy rotation='0'/>",
     [udt_dump_hierarchy; get_u2_hierarchy; get_appium_hierarchy]).
Proof.
  apply (dump_repeat_stable first_request
           [get_u2_hierarchy; udt_dump_hierarchy; get_appium_hierarchy]).
  reflexivity.
Defined.

Lemma dump_hierarchy_promotes_before_parse_witness :
  dump_hierarchy (Ok (1080, 2400)) first_request sample_fromstring
    [get_u2_hierarchy; udt_dump_hierarchy; get_appium_hierarchy]
  = (Raise (XMLParseError "syntax error"),
     [udt_dump_hierarchy; get_u2_hierarchy; get_appium_hierarchy]).
Proof.
  apply (dump_hierarchy_promotes_before_parse first_request
           sample_fromstring 1080 2400 [get_u2_hierarchy]
           udt_dump_hierarchy [get_appium_hierarchy]
           "<hierarchy rotation='0'/>").
  - constructor; [|constructor].
    exists (RequestException "connection refused"). split; reflexivity.
  - reflexivity.
  - reflexivity.
Defined.

(** ** Binary64 arithmetic *)

Lemma pow2_pos e : (0 < pow2 e)%Q.
Proof. by apply Qpower_0_lt. Qed.

Lemma pow2_add a b : (pow2 (a + b) == pow2 a * pow2 b)%Q.
Proof. by apply Qpower_plus. Qed.

Lemma pow2_mono a b : a <= b -> (pow2 a <= pow2 b)%Q.
Proof. intros Hab. by apply Qpower_le_compat_l. Qed.

Lemma pow2_lt a b : a < b -> (pow2 a < pow2 b)%Q.
Proof. intros Hab. by apply Qpower_lt_compat_l. Qed.

Lemma pow2_Z e : 0 <= e -> (pow2 e == inject_Z (2 ^ e))%Q.
Proof. intros He. unfold pow2. by rewrite Zpower_Qpower. Qed.

(** [ilog2] does not overshoot. *)
Lemma ilog2_lower q : (0 < q)%Q -> (pow2 (ilog2 q) <= q)%Q.
Proof.
  intros Hq. unfold ilog2.
  destruct q as [n d]. cbn [Qnum Qden].
  set (a := Z.log2 n). set (b := Z.log2 (Z.pos d)).
  destruct (Qle_bool (pow2 (a - b)) (n # d)) eqn:Hk;
    [by apply Qle_bool_iff|].
  assert (0 < n) as Hn by (unfold Qlt in Hq; simpl in Hq; lia).
  assert (2 ^ a <= n) as Hlo by (apply Z.log2_spec; lia).
  assert (Z.pos d < 2 ^ (b + 1)) as Hhi.
  { replace (b + 1) with (Z.succ b) by lia. apply Z.log2_spec. lia. }
  assert (0 <= a) as Ha by apply Z.log2_nonneg.
  assert (0 <= b) as Hb by apply Z.log2_nonneg.
  assert (pow2 (a - b - 1) * pow2 (b + 1) == inject_Z (2 ^ a))%Q as Hmul.
  { rewrite <- pow2_add, <- pow2_Z by lia. by replace (a - b - 1 + (b + 1)) with a by lia. }
  rewrite (pow2_Z (b + 1)) in Hmul by lia.
  assert (0 < 2 ^ (b + 1)) as Hp by (apply Z.pow_pos_nonneg; lia).
  assert (pow2 (a - b - 1) == inject_Z (2 ^ a) / inject_Z (2 ^ (b + 1)))%Q
    as ->.
  { rewrite <- Hmul. rewrite Qdiv_mult_l; [reflexivity|].
    intros H0. unfold Qeq in H0. simpl in H0. lia. }
  apply Qle_shift_div_r.
  - change 0%Q with (inject_Z 0). by rewrite <- Zlt_Qlt.
  - unfold Qle. simpl. rewrite !Z.mul_1_r, Pos.mul_1_r.
    nia.
Qed.

Lemma Qabs_nonneg_eq q : (0 <= q)%Q -> Qabs q = q.
Proof.
  destruct q as [n d]. unfold Qle, Qabs. simpl. intros Hn.
  f_equal. apply Z.abs_eq. lia.
Qed.

(** A non-negative quotient below [2^1023] is rounded to a float
    between 0 and [2^1023]. *)
Lemma binary64_bound q :
  (0 <= q)%Q -> (q < pow2 1023)%Q ->
  (0 <= binary64 q)%Q /\ (binary64 q <= pow2 1023)%Q.
Proof.
  intros Hq0 Hq. unfold binary64.
  destruct (Qeq_bool q 0) eqn:Hz.
  { split; [done|]. apply Qlt_le_weak, pow2_pos. }
  apply Qeq_bool_neq in Hz.
  assert (0 < q)%Q as Hpos.
  { apply Qle_lteq in Hq0 as [?|Heq]; [done|]. by symmetry in Heq. }
  set (e := binary64_exp q).
  assert (e <= 970) as He.
  { unfold e, binary64_exp. rewrite Qabs_nonneg_eq by done.
    destruct (Z.le_gt_cases (ilog2 q) 1022) as [?|Hbig]; [lia|].
    exfalso. apply (Qlt_irrefl q).
    eapply Qlt_le_trans; [exact Hq|].
    eapply Qle_trans; [|by apply ilog2_lower].
    apply pow2_mono. lia. }
  pose proof (pow2_pos e) as Hpe.
  assert (0 <= q / pow2 e)%Q as Hlo.
  { apply Qle_shift_div_l; [done|]. by rewrite Qmult_0_l. }
  assert (q / pow2 e <= inject_Z (2 ^ (1023 - e)))%Q as Hhi.
  { apply Qle_shift_div_r; [done|].
    rewrite <- pow2_Z, <- pow2_add by lia.
    replace (1023 - e + e) with 1023 by lia. by apply Qlt_le_weak. }
  apply (round_half_even_lower 0) in Hlo.
  apply round_half_even_upper in Hhi.
  set (m := round_half_even (q / pow2 e)) in *.
  rewrite Qred_correct. split.
  - apply Qmult_le_0_compat; [|by apply Qlt_le_weak].
    change 0%Q with (inject_Z 0). by rewrite <- Zle_Qle.
  - replace 1023 with (1023 - e + e) at 1 by lia.
    rewrite pow2_add, (pow2_Z (1023 - e)) by lia.
    apply Qmult_le_compat_r; [by rewrite <- Zle_Qle | by apply Qlt_le_weak].
Qed.

(** A quotient below [2^1023] does not overflow. *)
Lemma float_in_range_small x dim :
  0 <= x -> 0 < dim -> x < 2 ^ 1023 * dim -> float_in_range x dim.
Proof.
  intros Hx Hdim Hlt. unfold float_in_range.
  assert (0 < inject_Z dim)%Q as HD
    by (change 0%Q with (inject_Z 0); by rewrite <- Zlt_Qlt).
  destruct (binary64_bound (inject_Z x / inject_Z dim)) as [Hlo Hhi].
  - by apply Zdiv_Q_nonneg.
  - apply Qlt_shift_div_r; [done|].
    rewrite pow2_Z by lia. rewrite <- inject_Z_mult. by rewrite <- Zlt_Qlt.
  - rewrite Qabs_pos by done.
    eapply Qle_lt_trans; [exact Hhi|]. by apply pow2_lt.
Qed.

Lemma float_truediv_in_range x dim :
  dim <> 0 -> float_in_range x dim ->
  float_truediv x dim = Ok (binary64 (fraction x dim)).
Proof.
  intros Hdim Hr. unfold float_truediv, fraction.
  destruct (Z.eqb_spec dim 0); [done|].
  destruct (Qle_bool _ _) eqn:Hle; [|done].
  apply Qle_bool_iff in Hle. exfalso.
  by apply (Qlt_not_le _ _ Hr).
Qed.

Lemma float_round_rounded_to x n : float_rounded_to n x (float_round x n).
Proof.
  exists (round_half_even (x * inject_Z (10 ^ Z.of_nat n))).
  split; [done | apply round_half_even_near].
Qed.

(** The exact-arithmetic normalisation is the same program over the
    exact division and rounding. *)
Lemma normalize_bounds_with_exact s wsize :
  normalize_bounds s wsize
  = normalize_bounds_with truediv (fun x => round x 4) s wsize.
Proof. reflexivity. Qed.

(** C8, as the code has it.  For the geometry text ["[x1,y1][x2,y2]"]
    of four non-negative integers, each of at most 4300 digits (longer
    runs of digits are refused by [int]), and a window of positive
    width and height, when no quotient overflows a float, the
    normalisation
    returns [(round(x1/width, 4), round(y1/height, 4),
    round(x2/width, 4), round(y2/height, 4))] computed on floats: each
    quotient is the binary64 number nearest to the exact quotient, and
    each coordinate is the float nearest to a multiple of 0.0001 that
    is at most 0.00005 away from that float quotient. *)
Theorem normalize_bounds64_geometry x1 y1 x2 y2 w h :
  0 <= x1 < 10 ^ 4300 -> 0 <= y1 < 10 ^ 4300 ->
  0 <= x2 < 10 ^ 4300 -> 0 <= y2 < 10 ^ 4300 ->
  0 < w -> 0 < h ->
  float_in_range x1 w -> float_in_range y1 h ->
  float_in_range x2 w -> float_in_range y2 h ->
  exists a b c d,
    normalize_bounds64 (geometry x1 y1 x2 y2) (mkWindowSize w h)
    = Ok (a, b, c, d) /\
    (a, b, c, d)
    = (float_round (binary64 (fraction x1 w)) 4,
       float_round (binary64 (fraction y1 h)) 4,
       float_round (binary64 (fraction x2 w)) 4,
       float_round (binary64 (fraction y2 h)) 4) /\
    float_rounded_to 4 (binary64 (fraction x1 w)) a /\
    float_rounded_to 4 (binary64 (fraction y1 h)) b /\
    float_rounded_to 4 (binary64 (fraction x2 w)) c /\
    float_rounded_to 4 (binary64 (fraction y2 h)) d.
Proof.
  intros [H1 _] [H2 _] [H3 _] [H4 _] Hw Hh R1 R2 R3 R4.
  do 4 eexists. split; [|split; [reflexivity|]].
  - unfold normalize_bounds64, normalize_bounds_with.
    rewrite findall_digits_geometry by done. cbn [map].
    rewrite !int_str by done. cbn [width height].
    rewrite !float_truediv_in_range by (done || lia). done.
  - repeat split; apply float_round_rounded_to.
Qed.

Lemma normalize_bounds64_geometry_witness :
  exists a b c d,
    normalize_bounds64 "[883,2222][1008,2265]" (mkWindowSize 1080 2400)
    = Ok (a, b, c, d) /\
    (a, b, c, d)
    = (7364286110676235 # 9007199254740992,
       4169432535019605 # 4503599627370496,
       1050802383056221 # 1125899906842624,
       4250046968349537 # 4503599627370496)%Q.
Proof.
  destruct (normalize_bounds64_geometry 883 2222 1008 2265 1080 2400)
    as (a & b & c & d & Hn & Heq & _).
  1-4: split; [lia | by apply Z.ltb_lt].
  1-2: lia.
  1-4: apply float_in_range_small; [lia | lia | by apply Z.ltb_lt].
  exists a, b, c, d. split; [exact Hn|].
  rewrite Heq. vm_compute. reflexivity.
Defined.

(** Two inputs on which the normalisation does not return the exact
    quotients rounded to 4 decimal digits.  The quotient of [2^1024] by
    a width of 1 does not fit in a float and the division raises.  And
    for the bottom edge 2265 of a window 2400 high the exact quotient is
    0.94375, which rounds to 0.9438, whereas the float quotient lies
    just below and the coordinate returned is the float of 0.9437. *)
Lemma normalize_bounds64_not_exact :
  normalize_bounds64 (geometry (2 ^ 1024) 0 1 1) (mkWindowSize 1 1)
  = Raise (OtherError "integer division result too large for a float")
  /\
  exists a b c d,
    normalize_bounds64 "[883,2222][1008,2265]" (mkWindowSize 1080 2400)
    = Ok (a, b, c, d) /\
    d = binary64 (9437 # 10000) /\
    (d < 94371 # 100000)%Q /\
    (round (fraction 2265 2400) 4 == 9438 # 10000)%Q.
Proof.
  split; [by vm_compute|].
  do 4 eexists. split; [by vm_compute|].
  split; [by vm_compute|]. split; by vm_compute.
Qed.
